(** * Redka key registry and sorted-set algebra: a shallow embedding

    The Go packages [rkey] (internal/rkey/tx.go) and [rzset] (the inter,
    range and union commands) drive a relational store through SQL text.
    The embedding keeps the two relations as lists of rows, gives every SQL
    statement of the source the meaning SQLite gives it on such tables, and
    threads the store, the wall clock and a log of issued statements through
    a small state monad, so that the Go functions read as they are written.

    Conventions:
    - Go [int]/[int64] values are [Z]; the code performs no arithmetic on
      them that could wrap (only comparisons, [len] and a bounded [index++]).
      The SQL expression [version+1] is integer addition on [Z].
    - [float64] scores are the primitive binary64 floats of Rocq.
    - a Go result pair [(v, err)] is a pair [(v, option Error)].
    - [time.Now()] reads an oracle clock (nanoseconds since the epoch) and
      advances its position, so two readings in one function may differ.
    - statements fail only through the constraints of the schema; failures
      of the storage medium itself are not modelled. *)

From Stdlib Require Import ZArith List String Bool Lia Ascii Permutation.
From Stdlib Require Import Floats.PrimFloat.
Import ListNotations.

Local Open Scope string_scope.
Local Open Scope list_scope.
Local Open Scope Z_scope.

(** ** core: key records, set items, errors *)

(** [core.Key], as filled by [rows.Scan(&k.ID, &k.Key, &k.Type, &k.Version,
    &k.ETime, &k.MTime)]; [ETime] is a nullable column ([*int64]). *)
Record Key : Type := mkKey {
  ID : Z;
  Name : string;
  Type_ : Z;
  Version : Z;
  ETime : option Z;
  MTime : Z
}.

(** The zero value [core.Key{}]. *)
Definition emptyKey : Key := mkKey 0 "" 0 0 None 0.

Definition option_Z_eqb (a b : option Z) : bool :=
  match a, b with
  | None, None => true
  | Some x, Some y => x =? y
  | _, _ => false
  end.

Definition Key_eqb (a b : Key) : bool :=
  (ID a =? ID b) && String.eqb (Name a) (Name b) && (Type_ a =? Type_ b)
  && (Version a =? Version b) && option_Z_eqb (ETime a) (ETime b)
  && (MTime a =? MTime b).

(** Modelled from the spec: [core.Key.Exists] is not part of the sources at
    hand.  The registry's get returns "the empty record if absent/expired",
    so a record exists when it is not the empty record. *)
Definition Exists (k : Key) : bool := negb (Key_eqb k emptyKey).

(** A member row of [rzset]. *)
Record ZRow : Type := mkZRow {
  key_id : Z;
  zelem : string;
  zscore : float
}.

(** [SetItem]: an element with its score, as produced by [scanItem]. *)
Record SetItem : Type := mkItem {
  Elem : string;
  Score : float
}.

(** The error surface.  [ErrUnique] is the store's unique-constraint
    violation before classification. *)
Inductive Error : Type :=
| ErrNotFound
| ErrKeyType
| ErrUnique.

(** Modelled from the spec: [sqlx.TypedError] is not part of the sources at
    hand; it is the "typed-error classifier that converts store
    unique-constraint violations ... into the wrong-type kind". *)
Definition TypedError (e : Error) : Error :=
  match e with
  | ErrUnique => ErrKeyType
  | other => other
  end.

(** Aggregate selector: [sqlx.Sum], [sqlx.Min], [sqlx.Max]. *)
Inductive Aggregate : Type := Sum | Min | Max.

(** Sort direction: [sqlx.Asc], [sqlx.Desc]. *)
Inductive SortDir : Type := Asc | Desc.

(** ** The store *)

(** Modelled from the spec: the schema is not part of the sources at hand.
    It is [keys(id INTEGER PK, key TEXT UNIQUE, type INTEGER, version
    INTEGER, etime INTEGER NULL, mtime INTEGER)] and [zset(key_id INTEGER
    FK->keys.id, elem BLOB, score REAL, UNIQUE(key_id, elem))], where
    "deletion of a key record cascades".  [rkey] is a rowid table: its rows
    are kept in the order a table scan visits them. *)
Record Store : Type := mkStore {
  rkey : list Key;
  rzset : list ZRow
}.

(** The SQL statements of the source, by the name of their constant. *)
Inductive Stmt : Type :=
| SqlGet | SqlCount | SqlKeys | SqlScan | SqlRandom | SqlExpire | SqlPersist
| SqlRename | SqlDelete | SqlDeleteType
| SqlInter | SqlInterStore1 | SqlInterStore2
| SqlUnion | SqlUnionStore1 | SqlUnionStore2
| SqlRangeRank | SqlRangeScore.

(** What a run can observe and change: the store, how many times the clock
    was read, and the statements sent to the store, oldest first. *)
Record World : Type := mkWorld {
  store : Store;
  ticks : nat;
  log : list Stmt
}.

(** ** A state monad over the world *)

Definition M (A : Type) : Type := World -> A * World.

Definition ret {A} (a : A) : M A := fun w => (a, w).

Definition bind {A B} (m : M A) (k : A -> M B) : M B :=
  fun w => let (a, w') := m w in k a w'.

Notation "x <- m ;; k" := (bind m (fun x => k))
  (at level 61, m at next level, right associativity).
Notation "' pat <- m ;; k" := (bind m (fun x => match x with pat => k end))
  (at level 61, pat pattern, m at next level, right associativity).

(** Send statement [s] to the store; [f] is its meaning. *)
Definition exec {A} (s : Stmt) (f : Store -> A * Store) : M A :=
  fun w =>
    let (a, st) := f (store w) in
    (a, mkWorld st (ticks w) (log w ++ [s])).

(** A statement that only reads. *)
Definition query {A} (s : Stmt) (f : Store -> A) : M A :=
  exec s (fun st => (f st, st)).

(** [t.UnixMilli()] for a time in nanoseconds. *)
Definition UnixMilli (t : Z) : Z := t / 1000000.

(** ** SQL building blocks *)

(** [etime is null or etime > :now]. *)
Definition live (now : Z) (k : Key) : bool :=
  match ETime k with
  | None => true
  | Some e => now <? e
  end.

(** [key in (:keys)] after [sqlx.ExpandIn]. *)
Definition key_in (keys : list string) (k : Key) : bool :=
  existsb (String.eqb (Name k)) keys.

(** [limit n]: a negative bound means no bound. *)
Definition sql_limit {A} (n : Z) (l : list A) : list A :=
  if n <? 0 then l else firstn (Z.to_nat n) l.

(** [limit o, n]: skip [o] rows (none when [o] is negative), then [limit n]. *)
Definition sql_limit_offset {A} (o n : Z) (l : list A) : list A :=
  sql_limit n (skipn (Z.to_nat o) l).

(** The foreign key of the schema, [rzset.key_id -> rkey.id], cascading on
    delete: the member rows that survive the deletion of the key rows
    [gone]. *)
Definition cascade (gone : list Key) (zs : list ZRow) : list ZRow :=
  filter (fun z => negb (existsb (fun k => ID k =? key_id z) gone)) zs.

(** [delete from rkey where p]: returns the affected-row count. *)
Definition delete_where (p : Key -> bool) (st : Store) : Z * Store :=
  let gone := filter p (rkey st) in
  (Z.of_nat (List.length gone),
   mkStore (filter (fun k => negb (p k)) (rkey st)) (cascade gone (rzset st))).

(** [update rkey set ... where p]: returns the affected-row count. *)
Definition update_where (p : Key -> bool) (f : Key -> Key) (st : Store)
  : Z * Store :=
  (Z.of_nat (List.length (filter p (rkey st))),
   mkStore (map (fun k => if p k then f k else k) (rkey st)) (rzset st)).

(** The rowid SQLite assigns to a row inserted without one: one more than
    the largest in use, or 1 in an empty table. *)
Definition next_id (rows : list Key) : Z :=
  match map ID rows with
  | [] => 1
  | i :: l => fold_left Z.max l i + 1
  end.

(** [insert into rkey (key, type, version, mtime) values (...) returning id].
    [key] is unique among all rows, expired ones included. *)
Definition insert_key (name : string) (typ version mtime : Z) (st : Store)
  : (Z * option Error) * Store :=
  if existsb (fun k => String.eqb (Name k) name) (rkey st)
  then ((0, Some ErrUnique), st)
  else
    let id := next_id (rkey st) in
    ((id, None),
     mkStore (rkey st ++ [mkKey id name typ version None mtime]) (rzset st)).

(** [update or replace rkey set id = old.id, key = :new_key, type = old.type,
    version = old.version+1, etime = old.etime, mtime = :now from (select ...
    where key = :key and live) as old where rkey.key = :key and live].
    The target rows and the [old] rows are selected by the same condition;
    [or replace] removes every other row that holds the new name or the new
    id before the target is rewritten. *)
Definition rename_rows (key new_key : string) (now : Z) (st : Store)
  : Z * Store :=
  let sel := fun k => String.eqb (Name k) key && live now k in
  match filter sel (rkey st) with
  | [] => (0, st)
  | old :: _ =>
      let new :=
        mkKey (ID old) new_key (Type_ old) (Version old + 1) (ETime old) now in
      let keep := fun k =>
        sel k || negb ((ID k =? ID new) || String.eqb (Name k) new_key) in
      (Z.of_nat (List.length (filter sel (rkey st))),
       mkStore
         (map (fun k => if sel k then new else k) (filter keep (rkey st)))
         (cascade (filter (fun k => negb (keep k)) (rkey st)) (rzset st)))
  end.

(** ** rkey: the key registry (internal/rkey/tx.go) *)

Definition scanPageSize : Z := 10.

(** [ScanResult]. *)
Record ScanResult : Type := mkScanResult {
  Cursor : Z;
  Keys : list Key
}.

(** [Scanner]; the [db] field is the transaction the world stands for. *)
Record Scanner : Type := mkScanner {
  sc_cursor : Z;
  sc_pattern : string;
  sc_pageSize : Z;
  sc_index : Z;
  sc_cur : Key;
  sc_keys : list Key;
  sc_err : option Error
}.

Section Redka.

(** The wall clock: the [n]-th reading of [time.Now()], in nanoseconds. *)
Variable clock : nat -> Z.

(** SQLite's [glob] operator, [glob pattern name]; it lives in the store
    engine, outside the sources at hand. *)
Variable glob : string -> string -> bool.

(** [core.TypeSortedSet] and [core.InitialVersion], constants of the [core]
    package, outside the sources at hand. *)
Variable TypeSortedSet : Z.
Variable InitialVersion : Z.

Definition time_Now : M Z :=
  fun w => (clock (ticks w), mkWorld (store w) (S (ticks w)) (log w)).

(** [Get] returns the key data structure. *)
Definition Get (key : string) : M (Key * option Error) :=
  t <- time_Now ;;
  let now := UnixMilli t in
  r <- query SqlGet
         (fun st => find (fun k => String.eqb (Name k) key && live now k)
                         (rkey st)) ;;
  match r with
  | None => ret (emptyKey, None)       (* sql.ErrNoRows *)
  | Some k => ret (k, None)
  end.

(** [Count] returns the number of existing keys among specified. *)
Definition Count (keys : list string) : M (Z * option Error) :=
  t <- time_Now ;;
  let now := UnixMilli t in
  n <- query SqlCount
         (fun st => Z.of_nat (List.length
            (filter (fun k => key_in keys k && live now k) (rkey st)))) ;;
  ret (n, None).

(** [Tx.Exists]. *)
Definition Tx_Exists (key : string) : M (bool * option Error) :=
  '(count, err) <- Count [key] ;;
  ret (count >? 0, err).

(** [Delete] deletes keys and their values (regardless of the type). *)
Definition Delete (keys : list string) : M (Z * option Error) :=
  t <- time_Now ;;
  let now := UnixMilli t in
  n <- exec SqlDelete
         (delete_where (fun k => key_in keys k && live now k)) ;;
  ret (n, None).

(** [DeleteType] deletes keys of a specific type. *)
Definition DeleteType (typ : Z) (keys : list string) : M (Z * option Error) :=
  t <- time_Now ;;
  let now := UnixMilli t in
  n <- exec SqlDeleteType
         (delete_where
            (fun k => key_in keys k && live now k && (Type_ k =? typ))) ;;
  ret (n, None).


(** The loop of [Tx.Scan] that selects the maximum ID. *)
Definition maxID_of (keys : list Key) : Z :=
  fold_left (fun maxID key => if ID key >? maxID then ID key else maxID)
            keys 0.

(** [Tx.Scan]. *)
Definition Tx_Scan (cursor : Z) (pattern : string) (pageSize : Z)
  : M (ScanResult * option Error) :=
  t <- time_Now ;;
  let now := UnixMilli t in
  let pageSize := if pageSize =? 0 then scanPageSize else pageSize in
  keys <- query SqlScan
            (fun st =>
               sql_limit pageSize
                 (filter (fun k => (ID k >? cursor) && glob pattern (Name k)
                                   && live now k)
                         (rkey st))) ;;
  ret (mkScanResult (maxID_of keys) keys, None).

(** [Tx.ExpireAt]; [at_] is a time in nanoseconds. *)
Definition Tx_ExpireAt (key : string) (at_ : Z) : M (bool * option Error) :=
  t <- time_Now ;;
  let now := UnixMilli t in
  count <- exec SqlExpire
             (update_where
                (fun k => String.eqb (Name k) key && live now k)
                (fun k => mkKey (ID k) (Name k) (Type_ k) (Version k)
                                (Some (UnixMilli at_)) (MTime k))) ;;
  ret (count >? 0, None).

(** [Tx.Expire]; [ttl] is a [time.Duration], in nanoseconds. *)
Definition Tx_Expire (key : string) (ttl : Z) : M (bool * option Error) :=
  t <- time_Now ;;
  let at_ := t + ttl in
  Tx_ExpireAt key at_.

(** [Tx.Persist]. *)
Definition Tx_Persist (key : string) : M (bool * option Error) :=
  t <- time_Now ;;
  let now := UnixMilli t in
  count <- exec SqlPersist
             (update_where
                (fun k => String.eqb (Name k) key && live now k)
                (fun k => mkKey (ID k) (Name k) (Type_ k) (Version k)
                                None (MTime k))) ;;
  ret (count >? 0, None).

(** [Tx.Rename]; the result is the [error]. *)
Definition Tx_Rename (key newKey : string) : M (option Error) :=
  '(oldK, err) <- Get key ;;
  match err with
  | Some e => ret (Some e)
  | None =>
      if negb (Exists oldK) then ret (Some ErrNotFound)
      else if String.eqb key newKey then ret None
      else
        '(_, err) <- Delete [newKey] ;;
        match err with
        | Some e => ret (Some e)
        | None =>
            t <- time_Now ;;
            let now := UnixMilli t in
            _ <- exec SqlRename (rename_rows key newKey now) ;;
            ret None
        end
  end.

(** [Tx.RenameNotExists]. *)
Definition Tx_RenameNotExists (key newKey : string)
  : M (bool * option Error) :=
  '(oldK, err) <- Get key ;;
  match err with
  | Some e => ret (false, Some e)
  | None =>
      if negb (Exists oldK) then ret (false, Some ErrNotFound)
      else if String.eqb key newKey then ret (false, None)
      else
        '(exist_, err) <- Tx_Exists newKey ;;
        match err with
        | Some e => ret (false, Some e)
        | None =>
            if exist_ then ret (false, None)
            else
              t <- time_Now ;;
              let now := UnixMilli t in
              _ <- exec SqlRename (rename_rows key newKey now) ;;
              ret (true, None)
        end
  end.

(** [newScanner]. *)
Definition newScanner (pattern : string) (pageSize : Z) : Scanner :=
  let pageSize := if pageSize =? 0 then scanPageSize else pageSize in
  mkScanner 0 pattern pageSize 0 emptyKey [] None.

(** The tail of [Scanner.Scan]: advance to the next key of the current
    page.  The index is within the page whenever this is reached. *)
Definition Scanner_advance (sc : Scanner) : bool * Scanner :=
  (true,
   mkScanner (sc_cursor sc) (sc_pattern sc) (sc_pageSize sc)
             (sc_index sc + 1)
             (nth (Z.to_nat (sc_index sc)) (sc_keys sc) emptyKey)
             (sc_keys sc) (sc_err sc)).

(** [Scanner.Scan]: the result and the scanner after the call. *)
Definition Scanner_Scan (sc : Scanner) : M (bool * Scanner) :=
  if sc_index sc >=? Z.of_nat (List.length (sc_keys sc)) then
    (* Fetch a new page of keys. *)
    '(out, err) <- Tx_Scan (sc_cursor sc) (sc_pattern sc) (sc_pageSize sc) ;;
    match err with
    | Some e =>
        ret (false,
             mkScanner (sc_cursor sc) (sc_pattern sc) (sc_pageSize sc)
                       (sc_index sc) (sc_cur sc) (sc_keys sc) (Some e))
    | None =>
        let sc' :=
          mkScanner (Cursor out) (sc_pattern sc) (sc_pageSize sc)
                    0 (sc_cur sc) (Keys out) (sc_err sc) in
        if Z.of_nat (List.length (sc_keys sc')) =? 0 then ret (false, sc')
        else ret (Scanner_advance sc')
    end
  else ret (Scanner_advance sc).

(** [Scanner.Key] and [Scanner.Err]. *)
Definition Scanner_Key (sc : Scanner) : Key := sc_cur sc.
Definition Scanner_Err (sc : Scanner) : option Error := sc_err sc.


(** ** rzset: SQL building blocks of the sorted-set algebra *)

(** Byte-wise order of element blobs. *)
Definition elem_leb (a b : string) : bool :=
  match String.compare a b with
  | Gt => false
  | _ => true
  end.

(** [order by score d, elem d] on (elem, score) rows: does [a] come no later
    than [b]? *)
Definition item_before (d : SortDir) (a b : SetItem) : bool :=
  match d with
  | Asc =>
      PrimFloat.ltb (Score a) (Score b)
      || (PrimFloat.eqb (Score a) (Score b) && elem_leb (Elem a) (Elem b))
  | Desc =>
      PrimFloat.ltb (Score b) (Score a)
      || (PrimFloat.eqb (Score a) (Score b) && elem_leb (Elem b) (Elem a))
  end.

Fixpoint insert_by {A} (before : A -> A -> bool) (x : A) (l : list A)
  : list A :=
  match l with
  | [] => [x]
  | y :: t => if before x y then x :: y :: t else y :: insert_by before x t
  end.

(** [order by]: rows arranged by the given comparison. *)
Definition order_by {A} (before : A -> A -> bool) (l : list A) : list A :=
  fold_right (insert_by before) [] l.

(** The aggregate functions [sum], [min], [max] over the scores of a group;
    a group is never empty. *)
Definition agg_step (a : Aggregate) (acc x : float) : float :=
  match a with
  | Sum => PrimFloat.add acc x
  | Min => if PrimFloat.ltb x acc then x else acc
  | Max => if PrimFloat.ltb acc x then x else acc
  end.

Definition aggregate (a : Aggregate) (scores : list float) : float :=
  match scores with
  | [] => PrimFloat.zero
  | x :: t => fold_left (agg_step a) t x
  end.

(** [from rzset join rkey on key_id = rkey.id and (etime is null or
    etime > :now) where p]: one member row per matching key row. *)
Definition joined (now : Z) (p : Key -> bool) (st : Store) : list ZRow :=
  flat_map
    (fun z =>
       map (fun _ => z)
           (filter (fun k => (key_id z =? ID k) && live now k && p k)
                   (rkey st)))
    (rzset st).

(** [group by elem]: each element with the rows that carry it. *)
Definition group_by_elem (rows : list ZRow) : list (string * list ZRow) :=
  map (fun e => (e, filter (fun z => String.eqb (zelem z) e) rows))
      (nodup string_dec (map zelem rows)).

(** [count(distinct key_id)] over a group. *)
Definition count_distinct_key_id (g : list ZRow) : Z :=
  Z.of_nat (List.length (nodup Z.eq_dec (map key_id g))).

(** [select elem, agg(score) ... group by elem [having ...] order by
    agg(score), elem] over the joined rows. *)
Definition select_grouped (a : Aggregate) (having : list ZRow -> bool)
           (rows : list ZRow) : list SetItem :=
  order_by (item_before Asc)
    (map (fun g => mkItem (fst g) (aggregate a (map zscore (snd g))))
         (filter (fun g => having (snd g)) (group_by_elem rows))).

(** [sqlInter] with its aggregate token replaced by [a]. *)
Definition inter_rows (a : Aggregate) (now : Z) (keys : list string)
           (nkeys : Z) (st : Store) : list SetItem :=
  select_grouped a (fun g => count_distinct_key_id g =? nkeys)
                 (joined now (key_in keys) st).

(** [sqlUnion] with its aggregate token replaced by [a]. *)
Definition union_rows (a : Aggregate) (now : Z) (keys : list string)
           (st : Store) : list SetItem :=
  select_grouped a (fun _ => true) (joined now (key_in keys) st).

(** [insert into rzset (key_id, elem, score) select :key_id, elem, ...]:
    the selected rows become members of [id]; [(key_id, elem)] is unique. *)
Definition insert_members (id : Z) (items : list SetItem) (st : Store)
  : (Z * option Error) * Store :=
  let rows := map (fun it => mkZRow id (Elem it) (Score it)) items in
  if existsb
       (fun z => existsb (fun r => (key_id z =? key_id r)
                                   && String.eqb (zelem z) (zelem r)) rows)
       (rzset st)
  then ((0, Some ErrUnique), st)
  else ((Z.of_nat (List.length rows), None),
        mkStore (rkey st) (rzset st ++ rows)).

(** [sqlRangeRank] with every [asc] replaced by the direction [d]: ranks are
    the zero-based row numbers within each [key_id] partition ordered by
    [score d, elem d]; the rows with rank in [start, stop] are returned
    ordered by [rank d, elem d]. *)
Definition ranked (d : SortDir) (rows : list ZRow) : list (SetItem * Z) :=
  flat_map
    (fun id =>
       let part :=
         order_by (item_before d)
           (map (fun z => mkItem (zelem z) (zscore z))
                (filter (fun z => key_id z =? id) rows)) in
       combine part (map Z.of_nat (seq 0 (List.length part))))
    (nodup Z.eq_dec (map key_id rows)).

Definition rank_before (d : SortDir) (a b : SetItem * Z) : bool :=
  match d with
  | Asc => (snd a <? snd b)
           || ((snd a =? snd b) && elem_leb (Elem (fst a)) (Elem (fst b)))
  | Desc => (snd b <? snd a)
            || ((snd a =? snd b) && elem_leb (Elem (fst b)) (Elem (fst a)))
  end.

Definition range_rank_rows (d : SortDir) (now : Z) (key : string)
           (start stop : Z) (st : Store) : list SetItem :=
  map fst
      (order_by (rank_before d)
         (filter (fun r => (start <=? snd r) && (snd r <=? stop))
                 (ranked d (joined now (fun k => String.eqb (Name k) key)
                                   st)))).

(** The clause [rangeScore] appends to its query. *)
Inductive LimitClause : Type :=
| NoLimit
| Limit (count : Z)                  (* limit :count *)
| LimitOffset (offset count : Z).    (* limit :offset, :count *)

Definition apply_limit {A} (c : LimitClause) (l : list A) : list A :=
  match c with
  | NoLimit => l
  | Limit n => sql_limit n l
  | LimitOffset o n => sql_limit_offset o n l
  end.

(** [sqlRangeScore] with every [asc] replaced by [d], before any limit. *)
Definition range_score_rows (d : SortDir) (now : Z) (key : string)
           (start stop : float) (st : Store) : list SetItem :=
  order_by (item_before d)
    (map (fun z => mkItem (zelem z) (zscore z))
         (filter (fun z => PrimFloat.leb start (zscore z)
                           && PrimFloat.leb (zscore z) stop)
                 (joined now (fun k => String.eqb (Name k) key) st))).

(** ** rzset: command descriptors *)

(** A database handle [*DB] and a transaction handle [*Tx]: both stand for
    access to the store of the world. *)
Inductive DB : Type := OpenDB.
Inductive Tx : Type := OpenTx.

(** Modelled from the spec: [DB.Update] is not part of the sources at hand;
    it "runs fn against a fresh write transaction and commits on nil return,
    rolls back on non-nil".  [A] is what the closure leaves in the variables
    it captured. *)
Definition DB_Update {A} (fn : M (A * option Error)) : M (A * option Error) :=
  fun w =>
    let (r, w') := fn w in
    match snd r with
    | None => (r, w')
    | Some _ => (r, mkWorld (store w) (ticks w') (log w'))
    end.

(** [InterCmd]. *)
Record InterCmd : Type := mkInterCmd {
  i_db : option DB;
  i_tx : option Tx;
  i_dest : string;
  i_keys : list string;
  i_aggregate : Aggregate
}.

Definition InterCmd_Dest (c : InterCmd) (dest : string) : InterCmd :=
  mkInterCmd (i_db c) (i_tx c) dest (i_keys c) (i_aggregate c).
Definition InterCmd_Sum (c : InterCmd) : InterCmd :=
  mkInterCmd (i_db c) (i_tx c) (i_dest c) (i_keys c) Sum.
Definition InterCmd_Min (c : InterCmd) : InterCmd :=
  mkInterCmd (i_db c) (i_tx c) (i_dest c) (i_keys c) Min.
Definition InterCmd_Max (c : InterCmd) : InterCmd :=
  mkInterCmd (i_db c) (i_tx c) (i_dest c) (i_keys c) Max.

(** [InterCmd.inter]. *)
Definition InterCmd_inter (c : InterCmd) : M (list SetItem * option Error) :=
  t <- time_Now ;;
  let now := UnixMilli t in
  items <- query SqlInter
             (inter_rows (i_aggregate c) now (i_keys c)
                         (Z.of_nat (List.length (i_keys c)))) ;;
  ret (items, None).

(** [InterCmd.store]. *)
Definition InterCmd_store (c : InterCmd) : M (Z * option Error) :=
  (* Delete the destination key if it exists. *)
  '(_, err) <- DeleteType TypeSortedSet [i_dest c] ;;
  match err with
  | Some e => ret (0, Some e)
  | None =>
      (* Insert the destination key and get its ID. *)
      t <- time_Now ;;
      let now := UnixMilli t in
      '(keyID, err) <- exec SqlInterStore1
                         (insert_key (i_dest c) TypeSortedSet InitialVersion
                                     now) ;;
      match err with
      | Some e => ret (0, Some (TypedError e))
      | None =>
          (* Intersect the sets and store the result. *)
          '(n, err) <- exec SqlInterStore2
                         (fun st =>
                            insert_members keyID
                              (inter_rows (i_aggregate c) now (i_keys c)
                                 (Z.of_nat (List.length (i_keys c))) st)
                              st) ;;
          match err with
          | Some e => ret (0, Some e)
          | None => ret (n, None)
          end
      end
  end.

(** [InterCmd.Run]. *)
Definition InterCmd_Run (c : InterCmd) : M (list SetItem * option Error) :=
  match i_db c with
  | Some _ => InterCmd_inter c
  | None =>
      match i_tx c with
      | Some _ => InterCmd_inter c
      | None => ret ([], None)
      end
  end.

(** [InterCmd.Store]. *)
Definition InterCmd_Store (c : InterCmd) : M (Z * option Error) :=
  match i_db c with
  | Some _ => DB_Update (InterCmd_store c)
  | None =>
      match i_tx c with
      | Some _ => InterCmd_store c
      | None => ret (0, None)
      end
  end.

(** [UnionCmd]. *)
Record UnionCmd : Type := mkUnionCmd {
  u_db : option DB;
  u_tx : option Tx;
  u_dest : string;
  u_keys : list string;
  u_aggregate : Aggregate
}.

Definition UnionCmd_Dest (c : UnionCmd) (dest : string) : UnionCmd :=
  mkUnionCmd (u_db c) (u_tx c) dest (u_keys c) (u_aggregate c).
Definition UnionCmd_Sum (c : UnionCmd) : UnionCmd :=
  mkUnionCmd (u_db c) (u_tx c) (u_dest c) (u_keys c) Sum.
Definition UnionCmd_Min (c : UnionCmd) : UnionCmd :=
  mkUnionCmd (u_db c) (u_tx c) (u_dest c) (u_keys c) Min.
Definition UnionCmd_Max (c : UnionCmd) : UnionCmd :=
  mkUnionCmd (u_db c) (u_tx c) (u_dest c) (u_keys c) Max.

(** [UnionCmd.union]. *)
Definition UnionCmd_union (c : UnionCmd) : M (list SetItem * option Error) :=
  t <- time_Now ;;
  let now := UnixMilli t in
  items <- query SqlUnion (union_rows (u_aggregate c) now (u_keys c)) ;;
  ret (items, None).

(** [UnionCmd.store]. *)
Definition UnionCmd_store (c : UnionCmd) : M (Z * option Error) :=
  (* Delete the destination key if it exists. *)
  '(_, err) <- DeleteType TypeSortedSet [u_dest c] ;;
  match err with
  | Some e => ret (0, Some e)
  | None =>
      (* Insert the destination key and get its ID. *)
      t <- time_Now ;;
      let now := UnixMilli t in
      '(keyID, err) <- exec SqlUnionStore1
                         (insert_key (u_dest c) TypeSortedSet InitialVersion
                                     now) ;;
      match err with
      | Some e => ret (0, Some (TypedError e))
      | None =>
          (* Union the sets and store the result. *)
          '(n, err) <- exec SqlUnionStore2
                         (fun st =>
                            insert_members keyID
                              (union_rows (u_aggregate c) now (u_keys c) st)
                              st) ;;
          match err with
          | Some e => ret (0, Some e)
          | None => ret (n, None)
          end
      end
  end.

(** [UnionCmd.Run]. *)
Definition UnionCmd_Run (c : UnionCmd) : M (list SetItem * option Error) :=
  match u_db c with
  | Some _ => UnionCmd_union c
  | None =>
      match u_tx c with
      | Some _ => UnionCmd_union c
      | None => ret ([], None)
      end
  end.

(** [UnionCmd.Store]. *)
Definition UnionCmd_Store (c : UnionCmd) : M (Z * option Error) :=
  match u_db c with
  | Some _ => DB_Update (UnionCmd_store c)
  | None =>
      match u_tx c with
      | Some _ => UnionCmd_store c
      | None => ret (0, None)
      end
  end.

(** [RangeCmd]; [tx] is the transaction the world stands for. *)
Record RangeCmd : Type := mkRangeCmd {
  r_key : string;
  r_byRank : option (Z * Z);
  r_byScore : option (float * float);
  r_sortDir : SortDir;
  r_offset : Z;
  r_count : Z
}.

Definition RangeCmd_ByRank (c : RangeCmd) (start stop : Z) : RangeCmd :=
  mkRangeCmd (r_key c) (Some (start, stop)) None (r_sortDir c) (r_offset c)
             (r_count c).
Definition RangeCmd_ByScore (c : RangeCmd) (start stop : float) : RangeCmd :=
  mkRangeCmd (r_key c) None (Some (start, stop)) (r_sortDir c) (r_offset c)
             (r_count c).
Definition RangeCmd_Asc (c : RangeCmd) : RangeCmd :=
  mkRangeCmd (r_key c) (r_byRank c) (r_byScore c) Asc (r_offset c) (r_count c).
Definition RangeCmd_Desc (c : RangeCmd) : RangeCmd :=
  mkRangeCmd (r_key c) (r_byRank c) (r_byScore c) Desc (r_offset c)
             (r_count c).
Definition RangeCmd_Offset (c : RangeCmd) (offset : Z) : RangeCmd :=
  mkRangeCmd (r_key c) (r_byRank c) (r_byScore c) (r_sortDir c) offset
             (r_count c).
Definition RangeCmd_Count (c : RangeCmd) (count : Z) : RangeCmd :=
  mkRangeCmd (r_key c) (r_byRank c) (r_byScore c) (r_sortDir c) (r_offset c)
             count.

(** [RangeCmd.rangeRank], for a descriptor filtered by rank. *)
Definition RangeCmd_rangeRank (c : RangeCmd) (byRank : Z * Z)
  : M (list SetItem * option Error) :=
  let (start, stop) := byRank in
  (* Check start and stop values. *)
  if (start <? 0) || (stop <? 0) then ret ([], None)
  else
    t <- time_Now ;;
    items <- query SqlRangeRank
               (range_rank_rows (r_sortDir c) (UnixMilli t) (r_key c)
                                start stop) ;;
    ret (items, None).

(** The limit clause [rangeScore] adds for an offset and a count. *)
Definition limit_clause (offset count : Z) : LimitClause :=
  if (offset >? 0) && (count >? 0) then LimitOffset offset count
  else if count >? 0 then Limit count
  else if offset >? 0 then LimitOffset offset (-1)
  else NoLimit.

(** [RangeCmd.rangeScore], for a descriptor filtered by score. *)
Definition RangeCmd_rangeScore (c : RangeCmd) (byScore : float * float)
  : M (list SetItem * option Error) :=
  let (start, stop) := byScore in
  t <- time_Now ;;
  items <- query SqlRangeScore
             (fun st =>
                apply_limit (limit_clause (r_offset c) (r_count c))
                  (range_score_rows (r_sortDir c) (UnixMilli t) (r_key c)
                                    start stop st)) ;;
  ret (items, None).

(** [RangeCmd.Run]. *)
Definition RangeCmd_Run (c : RangeCmd) : M (list SetItem * option Error) :=
  match r_byRank c with
  | Some byRank => RangeCmd_rangeRank c byRank
  | None =>
      match r_byScore c with
      | Some byScore => RangeCmd_rangeScore c byScore
      | None => ret ([], None)
      end
  end.

End Redka.

(** ** Invariants of the schema *)

(** Rowid order of [rkey]: ids above [lo], strictly ascending. *)
Fixpoint ids_ascending (lo : Z) (rows : list Key) : bool :=
  match rows with
  | [] => true
  | k :: t => (lo <? ID k) && ids_ascending (ID k) t
  end.

(** Ids are the positive rowids the store assigned, in table order. *)
Definition rowid_order (st : Store) : bool := ids_ascending 0 (rkey st).

(** [key TEXT UNIQUE]. *)
Fixpoint names_unique (rows : list Key) : bool :=
  match rows with
  | [] => true
  | k :: t =>
      negb (existsb (fun k' => String.eqb (Name k') (Name k)) t)
      && names_unique t
  end.

(** [key_id] references an existing key row. *)
Definition fk_ok (st : Store) : bool :=
  forallb (fun z => existsb (fun k => ID k =? key_id z) (rkey st)) (rzset st).

(** The members of the key row [id]. *)
Definition members (id : Z) (st : Store) : list ZRow :=
  filter (fun z => key_id z =? id) (rzset st).

(** The clock reading number [n], in milliseconds. *)
Definition now_at (clock : nat -> Z) (n : nat) : Z := UnixMilli (clock n).

(** ** A concrete store, for examples

    Three sorted sets [x], [y], [z] (type tag 5) and a string key [d]
    (type tag 1); the clock starts at one second and advances by one
    millisecond per reading; every name matches the pattern. *)

Definition clock0 (n : nat) : Z := 1000000000 + Z.of_nat n * 1000000.
Definition glob0 (pattern name : string) : bool := true.

Definition store0 : Store :=
  mkStore
    [mkKey 1 "x" 5 1 None 0; mkKey 2 "y" 5 1 None 0;
     mkKey 3 "z" 5 1 (Some 5000) 0; mkKey 4 "d" 1 1 None 0]
    [mkZRow 1 "a" 1%float; mkZRow 1 "b" 2%float; mkZRow 1 "c" 3%float;
     mkZRow 2 "b" 10%float; mkZRow 2 "c" 20%float; mkZRow 2 "d" 30%float;
     mkZRow 3 "c" 100%float; mkZRow 3 "d" 200%float].

Definition world0 : World := mkWorld store0 0 [].

(** ** Vocabulary of the statements *)

(** [InterCmd.store] and [UnionCmd.store] are the same three steps around
    different queries; [store_with] is that common shape, with the two
    statement names and the query [q now st] left open. *)
Definition store_with (clock : nat -> Z) (TypeSortedSet InitialVersion : Z)
           (s1 s2 : Stmt) (dest : string)
           (q : Z -> Store -> list SetItem) : M (Z * option Error) :=
  '(_, err) <- DeleteType clock TypeSortedSet [dest] ;;
  match err with
  | Some e => ret (0, Some e)
  | None =>
      t <- time_Now clock ;;
      let now := UnixMilli t in
      '(keyID, err) <- exec s1 (insert_key dest TypeSortedSet InitialVersion
                                           now) ;;
      match err with
      | Some e => ret (0, Some (TypedError e))
      | None =>
          '(n, err) <- exec s2 (fun st => insert_members keyID (q now st) st) ;;
          match err with
          | Some e => ret (0, Some e)
          | None => ret (n, None)
          end
      end
  end.

(** The queries of the two store forms, for a descriptor. *)
Definition inter_query (c : InterCmd) (now : Z) (st : Store) : list SetItem :=
  inter_rows (i_aggregate c) now (i_keys c)
             (Z.of_nat (List.length (i_keys c))) st.

Definition union_query (c : UnionCmd) (now : Z) (st : Store) : list SetItem :=
  union_rows (u_aggregate c) now (u_keys c) st.

(** The condition of [sqlDeleteType] for a single name. *)
Definition dest_doomed (tss now : Z) (dest : string) (k : Key) : bool :=
  key_in [dest] k && live now k && (Type_ k =? tss).

(** A run fails with wrong-type and leaves the store as it was. *)
Definition fails_wrong_type (m : M (Z * option Error)) (w : World) : Prop :=
  fst (m w) = (0, Some ErrKeyType) /\ store (snd (m w)) = store w.

(** [Store] against the inner [store] it wraps: the result pair is the
    same, and so is the world unless the run failed (a database handle then
    rolls the store back). *)
Definition same_as_inner (outer inner : M (Z * option Error)) (w : World)
  : Prop :=
  fst (outer w) = fst (inner w)
  /\ (snd (fst (inner w)) = None -> outer w = inner w).

(** The state after a run of the store form for destination [dest] and
    query [q], against the world [w] it started in.  [w1] is the world after
    the destination was cleared.  On failure nothing was inserted.  On
    success the destination row is new, the inserted member rows are the
    rows of the query, the result is their number, they are all the
    destination holds, and the destination record can be read back. *)
Definition store_post (clock : nat -> Z) (TypeSortedSet InitialVersion : Z)
           (dest : string) (q : Z -> Store -> list SetItem)
           (w : World) (r : (Z * option Error) * World) : Prop :=
  let w1 := snd (DeleteType clock TypeSortedSet [dest] w) in
  let now := now_at clock (S (ticks w)) in
  let n := fst (fst r) in
  let w' := snd r in
  match snd (fst r) with
  | Some _ => n = 0 /\ rzset (store w') = rzset (store w1)
  | None =>
      exists id,
        let row := mkKey id dest TypeSortedSet InitialVersion None now in
        let st2 := mkStore (rkey (store w1) ++ [row]) (rzset (store w1)) in
        let rows := map (fun it => mkZRow id (Elem it) (Score it)) (q now st2) in
        rkey (store w') = rkey (store w1) ++ [row]
        /\ rzset (store w') = rzset (store w1) ++ rows
        /\ n = Z.of_nat (List.length rows)
        /\ members id (store w') = rows
        /\ fst (Get clock dest w') = (row, None)
        /\ (q now st2 = [] -> n = 0 /\ members id (store w') = [])
  end.

(** The [where] clause of [sqlScan]. *)
Definition scan_match (glob : string -> string -> bool) (cursor : Z)
           (pattern : string) (now : Z) (k : Key) : bool :=
  (ID k >? cursor) && glob pattern (Name k) && live now k.

(** The row [sqlRename] writes in place of the live row [pre] when it moves
    it to the name [b] at time [now]. *)
Definition renamed (pre : Key) (b : string) (now : Z) : Key :=
  mkKey (ID pre) b (Type_ pre) (Version pre + 1) (ETime pre) now.

(** A row with its expiry replaced. *)
Definition with_etime (k : Key) (e : option Z) : Key :=
  mkKey (ID k) (Name k) (Type_ k) (Version k) e (MTime k).

(** A scanner that has just handed out the fourth and last key of the
    store: the next call reports the end, the one after it the first key
    again. *)
Definition scanner_at_end : Scanner :=
  mkScanner 4 "*" 10 4 (mkKey 4 "d" 1 1 None 0) (rkey store0) None.

(** A live row of that name is in the table. *)
Definition has_live (now : Z) (rows : list Key) (name : string) : bool :=
  existsb (fun k => String.eqb (Name k) name && live now k) rows.

(** The invariants of the schema together. *)
Definition wf (st : Store) : bool :=
  names_unique (rkey st) && rowid_order st && fk_ok st.





(** A member row as the (elem, score) pair the commands return. *)
Definition toItem (z : ZRow) : SetItem := mkItem (zelem z) (zscore z).

(** [UNIQUE(key_id, elem)] on the member rows. *)
Fixpoint members_unique (zs : list ZRow) : bool :=
  match zs with
  | [] => true
  | z :: t =>
      negb (existsb (fun z' => (key_id z' =? key_id z)
                               && String.eqb (zelem z') (zelem z)) t)
      && members_unique t
  end.

(** The name of the key row with the given id, if there is one. *)
Definition name_of (rows : list Key) (id : Z) : string :=
  match find (fun k => ID k =? id) rows with
  | Some k => Name k
  | None => ""
  end.

(** Ranked rows whose ranks lie above [lo] and ascend strictly. *)
Fixpoint ranks_ascending (lo : Z) (l : list (SetItem * Z)) : bool :=
  match l with
  | [] => true
  | r :: t => (lo <? snd r) && ranks_ascending (snd r) t
  end.

(** Rows numbered from [o] on: what [row_number() over w - 1] attaches to
    the rows of one partition when [o] is 0. *)
Definition numbered (l : list SetItem) (o : nat) : list (SetItem * Z) :=
  combine l (map Z.of_nat (seq o (List.length l))).

(** The intersect scenarios of the specification. *)
Example inter_sum_xyz :
  fst (InterCmd_Run clock0 (mkInterCmd None (Some OpenTx) "" ["x"; "y"; "z"] Sum)
                    world0)
  = ([mkItem "c" 123%float], None).
Proof. vm_compute. reflexivity. Qed.

Example inter_min_xyz :
  fst (InterCmd_Run clock0 (mkInterCmd None (Some OpenTx) "" ["x"; "y"; "z"] Min)
                    world0)
  = ([mkItem "c" 3%float], None).
Proof. vm_compute. reflexivity. Qed.

(** ** Basic facts about the monad *)

Lemma bind_ret_l {A B} (a : A) (k : A -> M B) (w : World) :
  bind (ret a) k w = k a w.
Proof. reflexivity. Qed.

Lemma time_Now_run clock w :
  time_Now clock w = (clock (ticks w), mkWorld (store w) (S (ticks w)) (log w)).
Proof. reflexivity. Qed.

(** ** Range by rank: negative bounds *)

(** C8. A range-by-rank query whose start or stop is negative returns the
    empty result with no error, whatever the store holds, and never reaches
    the store. *)
Theorem rangeRank_negative_bound_empty :
  forall (clock : nat -> Z) (c : RangeCmd) (start stop : Z) (w : World),
    r_byRank c = Some (start, stop) ->
    start < 0 \/ stop < 0 ->
    RangeCmd_Run clock c w = (([], None), w).
Proof.
  intros clock c start stop w Hrank Hneg.
  unfold RangeCmd_Run. rewrite Hrank.
  unfold RangeCmd_rangeRank.
  assert (Hguard : (start <? 0) || (stop <? 0) = true).
  { apply orb_true_iff.
    destruct Hneg as [H | H]; [left | right]; now apply Z.ltb_lt. }
  rewrite Hguard. reflexivity.
Qed.

Lemma rangeRank_negative_bound_empty_witness :
  (-1 < 0 \/ 5 < 0)
  /\ RangeCmd_Run clock0 (mkRangeCmd "x" (Some (-1, 5)) None Asc 0 0) world0
     = (([], None), world0).
Proof.
  split; [left; lia |].
  apply (rangeRank_negative_bound_empty clock0 _ (-1) 5 world0).
  - reflexivity.
  - left. lia.
Defined.

(** ** Commands without a handle *)

(** C10. An intersect or union descriptor that carries neither a database
    handle nor a transaction handle runs to the empty result with a nil
    error and stores to 0 with a nil error; the world (store, clock and
    statement log) is left as it was. *)
Theorem no_handle_is_noop :
  forall (clock : nat -> Z) (TypeSortedSet InitialVersion : Z)
         (ci : InterCmd) (cu : UnionCmd) (w : World),
    i_db ci = None -> i_tx ci = None ->
    u_db cu = None -> u_tx cu = None ->
    InterCmd_Run clock ci w = (([], None), w)
    /\ InterCmd_Store clock TypeSortedSet InitialVersion ci w = ((0, None), w)
    /\ UnionCmd_Run clock cu w = (([], None), w)
    /\ UnionCmd_Store clock TypeSortedSet InitialVersion cu w = ((0, None), w).
Proof.
  intros clock tss iv ci cu w Hidb Hitx Hudb Hutx.
  unfold InterCmd_Run, InterCmd_Store, UnionCmd_Run, UnionCmd_Store.
  rewrite Hidb, Hitx, Hudb, Hutx.
  repeat split; reflexivity.
Qed.

Lemma no_handle_is_noop_witness :
  InterCmd_Run clock0 (mkInterCmd None None "d" ["x"; "y"] Sum) world0
  = (([], None), world0)
  /\ InterCmd_Store clock0 5 1 (mkInterCmd None None "d" ["x"; "y"] Sum) world0
     = ((0, None), world0)
  /\ UnionCmd_Run clock0 (mkUnionCmd None None "d" ["x"; "y"] Max) world0
     = (([], None), world0)
  /\ UnionCmd_Store clock0 5 1 (mkUnionCmd None None "d" ["x"; "y"] Max) world0
     = ((0, None), world0).
Proof.
  apply (no_handle_is_noop clock0 5 1
           (mkInterCmd None None "d" ["x"; "y"] Sum)
           (mkUnionCmd None None "d" ["x"; "y"] Max) world0); reflexivity.
Defined.

(** ** Range by score: offset and count *)

Lemma insert_by_Permutation {A} (before : A -> A -> bool) (x : A) (l : list A) :
  Permutation (x :: l) (insert_by before x l).
Proof.
  induction l as [| y t IH]; simpl.
  - apply Permutation_refl.
  - destruct (before x y).
    + apply Permutation_refl.
    + eapply perm_trans; [apply perm_swap |].
      now apply perm_skip.
Qed.

(** [order by] rearranges rows: it neither drops nor adds any. *)
Lemma order_by_Permutation {A} (before : A -> A -> bool) (l : list A) :
  Permutation l (order_by before l).
Proof.
  induction l as [| x t IH]; simpl.
  - apply perm_nil.
  - eapply perm_trans; [apply perm_skip, IH |].
    apply insert_by_Permutation.
Qed.

(** The ordered rows of a by-score query are the members of the live key
    whose score lies between the bounds. *)
Lemma range_score_rows_matching d now key start stop st it :
  In it (range_score_rows d now key start stop st) <->
  exists z,
    In z (joined now (fun k => String.eqb (Name k) key) st)
    /\ PrimFloat.leb start (zscore z) = true
    /\ PrimFloat.leb (zscore z) stop = true
    /\ it = mkItem (zelem z) (zscore z).
Proof.
  unfold range_score_rows. split.
  - intros H.
    apply (Permutation_in _ (Permutation_sym (order_by_Permutation _ _))) in H.
    apply in_map_iff in H. destruct H as [z [Hz Hin]].
    apply filter_In in Hin. destruct Hin as [Hin Hb].
    apply andb_true_iff in Hb. destruct Hb as [H1 H2].
    exists z. repeat split; auto.
  - intros [z [Hin [H1 [H2 Hz]]]].
    apply (Permutation_in _ (order_by_Permutation _ _)).
    apply in_map_iff. exists z. split; [now symmetry |].
    apply filter_In. split; [assumption |].
    now rewrite H1, H2.
Qed.

Lemma sql_limit_positive {A} (n : Z) (l : list A) :
  0 < n -> sql_limit n l = firstn (Z.to_nat n) l.
Proof.
  intros Hn. unfold sql_limit.
  destruct (n <? 0) eqn:E; [apply Z.ltb_lt in E; lia | reflexivity].
Qed.

Lemma firstn_length_Z {A} (n : Z) (l : list A) :
  0 < n -> Z.of_nat (List.length (firstn (Z.to_nat n) l)) <= n.
Proof.
  intros Hn. pose proof (firstn_le_length (Z.to_nat n) l). lia.
Qed.

(** C7. A range-by-score query returns the ordered matching elements cut by
    offset and count: both positive, skip [offset] and return at most
    [count]; only count positive, at most [count] from the start; only offset
    positive, everything after the first [offset]; neither positive (both
    zero in particular), all of them. *)
Theorem rangeScore_offset_count :
  forall (clock : nat -> Z) (c : RangeCmd) (start stop : float) (w : World),
    r_byRank c = None ->
    r_byScore c = Some (start, stop) ->
    let ordered :=
      range_score_rows (r_sortDir c) (now_at clock (ticks w)) (r_key c)
                       start stop (store w) in
    let offset := r_offset c in
    let count := r_count c in
    exists items,
      fst (RangeCmd_Run clock c w) = (items, None)
      /\ (0 < offset -> 0 < count ->
          items = firstn (Z.to_nat count) (skipn (Z.to_nat offset) ordered)
          /\ Z.of_nat (List.length items) <= count)
      /\ (offset <= 0 -> 0 < count ->
          items = firstn (Z.to_nat count) ordered
          /\ Z.of_nat (List.length items) <= count)
      /\ (0 < offset -> count <= 0 ->
          items = skipn (Z.to_nat offset) ordered)
      /\ (offset <= 0 -> count <= 0 -> items = ordered).
Proof.
  intros clock c start stop w Hrank Hscore ordered offset count.
  unfold RangeCmd_Run. rewrite Hrank, Hscore.
  unfold RangeCmd_rangeScore, bind, query, exec, ret. simpl.
  fold offset count. fold (now_at clock (ticks w)). fold ordered.
  eexists. split; [reflexivity |].
  unfold limit_clause.
  destruct (Z.gtb_spec offset 0) as [Ho | Ho];
    destruct (Z.gtb_spec count 0) as [Hc | Hc];
    cbn [andb apply_limit]; unfold sql_limit_offset;
    repeat split; intros; try lia;
    rewrite ?sql_limit_positive by assumption;
    first [ reflexivity | now apply firstn_length_Z ].
Qed.

Lemma rangeScore_offset_count_witness :
  let c := mkRangeCmd "y" None (Some (0%float, 100%float)) Desc 1 0 in
  r_byRank c = None
  /\ r_byScore c = Some (0%float, 100%float)
  /\ fst (RangeCmd_Run clock0 c world0)
     = ([mkItem "c" 20%float; mkItem "b" 10%float], None).
Proof.
  intros c.
  split; [reflexivity | split; [reflexivity |]].
  destruct (rangeScore_offset_count clock0 c 0%float 100%float world0
              eq_refl eq_refl) as [items [Hrun [_ [_ [Hskip _]]]]].
  rewrite Hrun. f_equal.
  rewrite Hskip; [vm_compute; reflexivity | simpl; lia | simpl; lia].
Defined.

(** ** The store forms of intersect and union *)

Lemma InterCmd_store_shape clock tss iv c :
  InterCmd_store clock tss iv c
  = store_with clock tss iv SqlInterStore1 SqlInterStore2 (i_dest c)
               (inter_query c).
Proof. reflexivity. Qed.

Lemma UnionCmd_store_shape clock tss iv c :
  UnionCmd_store clock tss iv c
  = store_with clock tss iv SqlUnionStore1 SqlUnionStore2 (u_dest c)
               (union_query c).
Proof. reflexivity. Qed.

Lemma DeleteType_run clock tss dest w :
  DeleteType clock tss [dest] w
  = ((fst (delete_where (dest_doomed tss (now_at clock (ticks w)) dest)
                        (store w)), None),
     mkWorld (snd (delete_where (dest_doomed tss (now_at clock (ticks w)) dest)
                                (store w)))
             (S (ticks w)) (log w ++ [SqlDeleteType])).
Proof. reflexivity. Qed.

(** The run of the store form, step by step. *)
Lemma store_with_run clock tss iv s1 s2 dest q w :
  let st1 := snd (delete_where (dest_doomed tss (now_at clock (ticks w)) dest)
                               (store w)) in
  let now := now_at clock (S (ticks w)) in
  let lg := (log w ++ [SqlDeleteType]) ++ [s1] in
  store_with clock tss iv s1 s2 dest q w =
  if existsb (fun k => String.eqb (Name k) dest) (rkey st1)
  then ((0, Some ErrKeyType), mkWorld st1 (S (S (ticks w))) lg)
  else
    let id := next_id (rkey st1) in
    let st2 := mkStore (rkey st1 ++ [mkKey id dest tss iv None now])
                       (rzset st1) in
    let r := insert_members id (q now st2) st2 in
    match snd (fst r) with
    | Some e => ((0, Some e), mkWorld (snd r) (S (S (ticks w))) (lg ++ [s2]))
    | None =>
        ((fst (fst r), None), mkWorld (snd r) (S (S (ticks w))) (lg ++ [s2]))
    end.
Proof.
  intros st1 now lg.
  unfold store_with, bind. rewrite DeleteType_run. fold st1.
  rewrite time_Now_run. cbn [store ticks log].
  fold now. unfold exec at 1. cbn [store ticks log]. unfold insert_key.
  destruct (existsb (fun k => String.eqb (Name k) dest) (rkey st1)).
  - reflexivity.
  - cbv zeta. unfold exec. cbn [store ticks log].
    destruct (insert_members _ _ _) as [[n [e |]] st3]; reflexivity.
Qed.

(** *** List and invariant lemmas *)

Lemma filter_none {A} (p : A -> bool) (l : list A) :
  (forall x, In x l -> p x = false) -> filter p l = [].
Proof.
  induction l as [| a t IH]; intros H; simpl; [reflexivity |].
  rewrite (H a (or_introl eq_refl)). apply IH.
  intros x Hx. apply H. now right.
Qed.

Lemma filter_all {A} (p : A -> bool) (l : list A) :
  (forall x, In x l -> p x = true) -> filter p l = l.
Proof.
  induction l as [| a t IH]; intros H; simpl; [reflexivity |].
  rewrite (H a (or_introl eq_refl)). f_equal. apply IH.
  intros x Hx. apply H. now right.
Qed.

Lemma existsb_false_iff {A} (p : A -> bool) (l : list A) :
  existsb p l = false <-> forall x, In x l -> p x = false.
Proof.
  split.
  - intros H x Hx. destruct (p x) eqn:E; [| reflexivity].
    rewrite <- H. symmetry. apply existsb_exists. now exists x.
  - intros H. destruct (existsb p l) eqn:E; [| reflexivity].
    apply existsb_exists in E. destruct E as [x [Hx Hp]].
    now rewrite (H x Hx) in Hp.
Qed.

Lemma cascade_nil zs : cascade [] zs = zs.
Proof. unfold cascade. now apply filter_all. Qed.

Lemma store_eta st : mkStore (rkey st) (rzset st) = st.
Proof. now destruct st. Qed.

(** Under [key TEXT UNIQUE], a name identifies its row. *)
Lemma names_unique_inj rows :
  names_unique rows = true ->
  forall a b, In a rows -> In b rows -> Name a = Name b -> a = b.
Proof.
  induction rows as [| k t IH]; intros Hu a b Ha Hb Hn; [easy |].
  simpl in Hu. apply andb_true_iff in Hu. destruct Hu as [Hk Ht].
  apply negb_true_iff in Hk.
  pose proof (proj1 (existsb_false_iff _ _) Hk) as Hfresh.
  destruct Ha as [Ha | Ha], Hb as [Hb | Hb]; subst.
  - reflexivity.
  - specialize (Hfresh b Hb). rewrite <- Hn, String.eqb_refl in Hfresh.
    discriminate.
  - specialize (Hfresh a Ha). rewrite Hn, String.eqb_refl in Hfresh.
    discriminate.
  - now apply IH.
Qed.

Lemma key_in_single dest k : key_in [dest] k = String.eqb (Name k) dest.
Proof. unfold key_in. simpl. apply orb_false_r. Qed.

(** A destination of another type survives [sqlDeleteType] with the whole
    store. *)
Lemma delete_where_other_type tss now dest st k :
  names_unique (rkey st) = true ->
  In k (rkey st) -> Name k = dest -> Type_ k <> tss ->
  delete_where (dest_doomed tss now dest) st = (0, st).
Proof.
  intros Hu Hin Hname Htype.
  assert (Hnone : forall x, In x (rkey st) -> dest_doomed tss now dest x = false).
  { intros x Hx. unfold dest_doomed. rewrite key_in_single.
    destruct (String.eqb_spec (Name x) dest) as [E | E]; [| reflexivity].
    assert (x = k) by (apply (names_unique_inj _ Hu); congruence).
    subst x. simpl.
    destruct (Z.eqb_spec (Type_ k) tss); [contradiction |].
    apply andb_false_r. }
  unfold delete_where.
  rewrite (filter_none _ _ Hnone), cascade_nil. simpl.
  rewrite filter_all; [now rewrite store_eta |].
  intros x Hx. now rewrite (Hnone x Hx).
Qed.

(** *** Wrong-type destination *)

Lemma store_with_wrong_type clock tss iv s1 s2 dest q w k :
  names_unique (rkey (store w)) = true ->
  In k (rkey (store w)) -> Name k = dest -> Type_ k <> tss ->
  store_with clock tss iv s1 s2 dest q w
  = ((0, Some ErrKeyType),
     mkWorld (store w) (S (S (ticks w))) ((log w ++ [SqlDeleteType]) ++ [s1])).
Proof.
  intros Hu Hin Hname Htype.
  rewrite store_with_run.
  rewrite (delete_where_other_type tss _ dest (store w) k Hu Hin Hname Htype).
  cbn [snd].
  assert (Hex : existsb (fun k0 => String.eqb (Name k0) dest)
                        (rkey (store w)) = true).
  { apply existsb_exists. exists k. split; [assumption |].
    rewrite Hname. apply String.eqb_refl. }
  now rewrite Hex.
Qed.

(** Case analysis on the handle a descriptor carries, given that it
    carries one: the database handle, else the transaction handle. *)
Ltac through_handle db tx Hh :=
  destruct db; [| destruct tx; [| destruct Hh; congruence]].

Lemma DB_Update_wrong_type (m : M (Z * option Error)) w :
  fails_wrong_type m w -> fails_wrong_type (DB_Update m) w.
Proof.
  intros [Hres Hst]. unfold fails_wrong_type, DB_Update.
  destruct (m w) as [r w']. simpl in *. subst r. simpl. now split.
Qed.

(** C1. When the destination name holds a record whose type is not the
    sorted-set type (live or not), the store form of intersect and of union
    fails with the wrong-type error and the store, destination record
    included, is what it was before the call: [sqlDeleteType] removes nothing
    and the insert of the destination row is refused.  This holds for the
    inner [store] and for [Store] through either handle. *)
Theorem store_wrong_type_destination :
  forall (clock : nat -> Z) (TypeSortedSet InitialVersion : Z)
         (ci : InterCmd) (cu : UnionCmd) (w : World) (k : Key),
    names_unique (rkey (store w)) = true ->
    In k (rkey (store w)) ->
    Type_ k <> TypeSortedSet ->
    Name k = i_dest ci ->
    Name k = u_dest cu ->
    fails_wrong_type (InterCmd_store clock TypeSortedSet InitialVersion ci) w
    /\ fails_wrong_type (UnionCmd_store clock TypeSortedSet InitialVersion cu) w
    /\ (i_db ci <> None \/ i_tx ci <> None ->
        fails_wrong_type
          (InterCmd_Store clock TypeSortedSet InitialVersion ci) w)
    /\ (u_db cu <> None \/ u_tx cu <> None ->
        fails_wrong_type
          (UnionCmd_Store clock TypeSortedSet InitialVersion cu) w).
Proof.
  intros clock tss iv ci cu w k Hu Hin Htype Hi Hc.
  assert (Hinter : fails_wrong_type (InterCmd_store clock tss iv ci) w).
  { unfold fails_wrong_type. rewrite InterCmd_store_shape.
    rewrite (store_with_wrong_type _ _ _ _ _ _ _ _ k Hu Hin Hi Htype).
    now split. }
  assert (Hunion : fails_wrong_type (UnionCmd_store clock tss iv cu) w).
  { unfold fails_wrong_type. rewrite UnionCmd_store_shape.
    rewrite (store_with_wrong_type _ _ _ _ _ _ _ _ k Hu Hin Hc Htype).
    now split. }
  split; [exact Hinter | split; [exact Hunion | split]].
  - intros Hh. unfold InterCmd_Store.
    through_handle (i_db ci) (i_tx ci) Hh;
      [now apply DB_Update_wrong_type | assumption].
  - intros Hh. unfold UnionCmd_Store.
    through_handle (u_db cu) (u_tx cu) Hh;
      [now apply DB_Update_wrong_type | assumption].
Qed.

Lemma store_wrong_type_destination_witness :
  let ci := mkInterCmd (Some OpenDB) None "d" ["x"; "y"] Sum in
  let cu := mkUnionCmd None (Some OpenTx) "d" ["x"] Sum in
  let k := mkKey 4 "d" 1 1 None 0 in
  names_unique (rkey (store world0)) = true
  /\ In k (rkey (store world0))
  /\ Type_ k <> 5
  /\ Name k = i_dest ci
  /\ Name k = u_dest cu
  /\ fails_wrong_type (InterCmd_Store clock0 5 1 ci) world0
  /\ fails_wrong_type (UnionCmd_Store clock0 5 1 cu) world0.
Proof.
  intros ci cu k.
  assert (Hu : names_unique (rkey (store world0)) = true) by reflexivity.
  assert (Hin : In k (rkey (store world0))) by (simpl; tauto).
  assert (Hty : Type_ k <> 5) by (simpl; lia).
  destruct (store_wrong_type_destination clock0 5 1 ci cu world0 k
              Hu Hin Hty eq_refl eq_refl) as [_ [_ [HI HU]]].
  repeat (split; [assumption || reflexivity |]).
  split.
  - apply HI. left. discriminate.
  - apply HU. right. discriminate.
Defined.

(** *** What a successful store leaves behind *)

Lemma fold_max_ge (l : list Z) (i : Z) :
  i <= fold_left Z.max l i /\ forall x, In x l -> x <= fold_left Z.max l i.
Proof.
  revert i. induction l as [| a t IH]; intros i; simpl.
  - split; [lia | easy].
  - destruct (IH (Z.max i a)) as [H1 H2]. split; [lia |].
    intros x [Hx | Hx]; [subst; lia | now apply H2].
Qed.

(** The id given to an inserted row is above every id in the table. *)
Lemma next_id_fresh rows k : In k rows -> ID k < next_id rows.
Proof.
  unfold next_id. intros Hin. apply (in_map ID) in Hin.
  destruct (map ID rows) as [| i l]; [easy |].
  destruct (fold_max_ge l i) as [H1 H2].
  destruct Hin as [Hi | Hl]; [subst; lia |].
  specialize (H2 _ Hl). lia.
Qed.

(** Deleting key rows with their members keeps every member attached. *)
Lemma delete_where_fk_ok p st :
  fk_ok st = true -> fk_ok (snd (delete_where p st)) = true.
Proof.
  unfold fk_ok, delete_where, cascade. cbn [snd rkey rzset].
  intros H. apply forallb_forall. intros z Hz.
  apply filter_In in Hz. destruct Hz as [Hz Hkeep].
  apply negb_true_iff in Hkeep.
  pose proof (proj1 (forallb_forall _ _) H z Hz) as Hex.
  apply existsb_exists in Hex. destruct Hex as [k [Hk Hid]].
  apply existsb_exists. exists k. split; [| assumption].
  apply filter_In. split; [assumption |].
  destruct (p k) eqn:Hp; [| reflexivity].
  pose proof (proj1 (existsb_false_iff _ _) Hkeep k) as Hno.
  rewrite Hno in Hid; [discriminate |].
  apply filter_In. now split.
Qed.

(** No member row carries an id the table has not handed out yet. *)
Lemma members_of_next_id st :
  fk_ok st = true -> filter (fun z => key_id z =? next_id (rkey st)) (rzset st) = [].
Proof.
  intros H. apply filter_none. intros z Hz.
  pose proof (proj1 (forallb_forall _ _) H z Hz) as Hex.
  apply existsb_exists in Hex. destruct Hex as [k [Hk Hid]].
  apply Z.eqb_eq in Hid. pose proof (next_id_fresh _ _ Hk).
  apply Z.eqb_neq. lia.
Qed.

Lemma find_last {A} (p : A -> bool) (l : list A) (a : A) :
  (forall x, In x l -> p x = false) -> p a = true ->
  find p (l ++ [a]) = Some a.
Proof.
  induction l as [| b t IH]; intros Hl Ha; simpl.
  - now rewrite Ha.
  - rewrite (Hl b (or_introl eq_refl)). apply IH; [| assumption].
    intros x Hx. apply Hl. now right.
Qed.

Lemma store_with_post clock tss iv s1 s2 dest q w :
  fk_ok (store w) = true ->
  store_post clock tss iv dest q w (store_with clock tss iv s1 s2 dest q w).
Proof.
  intros Hfk. unfold store_post.
  rewrite store_with_run, DeleteType_run. cbn [snd store].
  set (st1 := snd (delete_where _ (store w))).
  assert (Hfk1 : fk_ok st1 = true) by now apply delete_where_fk_ok.
  destruct (existsb (fun k => String.eqb (Name k) dest) (rkey st1)) eqn:Hex.
  - cbn. now split.
  - cbv zeta. unfold insert_members. cbn [rzset rkey].
    set (id := next_id (rkey st1)).
    set (now := now_at clock (S (ticks w))).
    set (row := mkKey id dest tss iv None now).
    set (st2 := mkStore (rkey st1 ++ [row]) (rzset st1)).
    set (rows := map (fun it => mkZRow id (Elem it) (Score it)) (q now st2)).
    destruct (existsb _ (rzset st1)) eqn:Hclash.
    + cbn. now split.
    + cbn [fst snd store rkey rzset]. exists id. cbv zeta.
      fold row. fold st2. fold rows.
      assert (Hmem : members id (mkStore (rkey st1 ++ [row]) (rzset st1 ++ rows))
                     = rows).
      { unfold members. cbn [rzset]. rewrite filter_app.
        unfold id at 1. rewrite (members_of_next_id st1 Hfk1). simpl.
        apply filter_all. intros z Hz. unfold rows in Hz.
        apply in_map_iff in Hz. destruct Hz as [it [Hit _]]. subst z.
        apply Z.eqb_refl. }
      repeat split; try assumption.
      * unfold Get, bind, query, exec, ret. rewrite time_Now_run.
        cbn [store ticks log rkey fst snd].
        rewrite (find_last _ (rkey st1) row); [reflexivity | |].
        -- intros x Hx.
           rewrite (proj1 (existsb_false_iff _ _) Hex x Hx). reflexivity.
        -- unfold row. cbn [Name]. now rewrite String.eqb_refl.
      * match goal with Hq : q now st2 = [] |- _ =>
          unfold rows; now rewrite Hq end.
      * match goal with Hq : q now st2 = [] |- _ =>
          rewrite Hmem; unfold rows; now rewrite Hq end.
Qed.

(** The store form succeeds when the destination name is free once
    [sqlDeleteType] has run: every row of that name is a live sorted set. *)
Lemma store_with_succeeds clock tss iv s1 s2 dest q w :
  fk_ok (store w) = true ->
  (forall k, In k (rkey (store w)) -> Name k = dest ->
             live (now_at clock (ticks w)) k = true /\ Type_ k = tss) ->
  snd (fst (store_with clock tss iv s1 s2 dest q w)) = None.
Proof.
  intros Hfk Hdest. rewrite store_with_run.
  set (st1 := snd (delete_where _ (store w))).
  assert (Hfk1 : fk_ok st1 = true) by now apply delete_where_fk_ok.
  assert (Hex : existsb (fun k => String.eqb (Name k) dest) (rkey st1) = false).
  { apply existsb_false_iff. intros x Hx.
    unfold st1, delete_where in Hx. cbn [snd rkey] in Hx.
    apply filter_In in Hx. destruct Hx as [Hx Hkeep].
    destruct (String.eqb_spec (Name x) dest) as [E | E]; [| reflexivity].
    destruct (Hdest x Hx E) as [Hl Ht].
    unfold dest_doomed in Hkeep.
    rewrite key_in_single, E, String.eqb_refl, Hl, Ht, Z.eqb_refl in Hkeep.
    discriminate. }
  rewrite Hex. cbv zeta. unfold insert_members. cbn [rzset rkey].
  match goal with
  | |- context [existsb ?f (rzset st1)] =>
      assert (Hclash : existsb f (rzset st1) = false)
  end.
  { apply existsb_false_iff. intros z Hz.
    apply existsb_false_iff. intros r Hr.
    apply in_map_iff in Hr. destruct Hr as [it [Hr _]]. subst r.
    cbn [key_id].
    pose proof (members_of_next_id st1 Hfk1) as Hnone.
    assert (Hz' : (key_id z =? next_id (rkey st1)) = false).
    { destruct (key_id z =? next_id (rkey st1)) eqn:E; [| reflexivity].
      assert (In z []) as Hin; [| destruct Hin].
      rewrite <- Hnone. apply filter_In. now split. }
    now rewrite Hz'. }
  rewrite Hclash. reflexivity.
Qed.

(** When no source key is live, the joined rows, and with them the rows of
    both queries, are empty. *)
Lemma no_live_source_no_rows now keys st :
  (forall k, In k (rkey st) -> key_in keys k = true -> live now k = false) ->
  forall a n, inter_rows a now keys n st = [] /\ union_rows a now keys st = [].
Proof.
  intros Hdead a n.
  assert (Hj : joined now (key_in keys) st = []).
  { unfold joined. induction (rzset st) as [| z t IH]; [reflexivity |].
    simpl. rewrite IH, app_nil_r.
    rewrite filter_none; [reflexivity |].
    intros k Hk. destruct (key_in keys k) eqn:E.
    - rewrite (Hdead k Hk E). now rewrite andb_false_r.
    - apply andb_false_r. }
  unfold inter_rows, union_rows, select_grouped. rewrite Hj. now split.
Qed.

Lemma DB_Update_same_as_inner (m : M (Z * option Error)) w :
  same_as_inner (DB_Update m) m w.
Proof.
  unfold same_as_inner, DB_Update. destruct (m w) as [r w']. simpl.
  split; [now destruct (snd r) | now intros ->].
Qed.

(** C6. The store form of intersect and of union returns the number of
    member rows it inserted: on failure none and 0; on success the rows of
    the query, all filed under the new destination id, which then holds
    exactly them.  When the query yields no row the result is 0 and the new
    destination record is there, readable, with no member.  [Store] through
    a handle returns what the inner [store] returns. *)
Theorem store_returns_inserted_count :
  forall (clock : nat -> Z) (TypeSortedSet InitialVersion : Z)
         (ci : InterCmd) (cu : UnionCmd) (w : World),
    fk_ok (store w) = true ->
    store_post clock TypeSortedSet InitialVersion (i_dest ci) (inter_query ci)
               w (InterCmd_store clock TypeSortedSet InitialVersion ci w)
    /\ store_post clock TypeSortedSet InitialVersion (u_dest cu)
                  (union_query cu)
                  w (UnionCmd_store clock TypeSortedSet InitialVersion cu w)
    /\ (i_db ci <> None \/ i_tx ci <> None ->
        same_as_inner
          (InterCmd_Store clock TypeSortedSet InitialVersion ci)
          (InterCmd_store clock TypeSortedSet InitialVersion ci) w)
    /\ (u_db cu <> None \/ u_tx cu <> None ->
        same_as_inner
          (UnionCmd_Store clock TypeSortedSet InitialVersion cu)
          (UnionCmd_store clock TypeSortedSet InitialVersion cu) w).
Proof.
  intros clock tss iv ci cu w Hfk.
  split; [| split; [| split]].
  - rewrite InterCmd_store_shape. now apply store_with_post.
  - rewrite UnionCmd_store_shape. now apply store_with_post.
  - intros Hh. unfold InterCmd_Store.
    through_handle (i_db ci) (i_tx ci) Hh;
      [apply DB_Update_same_as_inner | now split].
  - intros Hh. unfold UnionCmd_Store.
    through_handle (u_db cu) (u_tx cu) Hh;
      [apply DB_Update_same_as_inner | now split].
Qed.

Lemma store_returns_inserted_count_witness :
  let ci := mkInterCmd (Some OpenDB) None "e" ["gone"] Sum in
  let cu := mkUnionCmd None (Some OpenTx) "x" ["x"; "y"] Sum in
  fk_ok (store world0) = true
  /\ store_post clock0 5 1 "e" (inter_query ci) world0
                (InterCmd_store clock0 5 1 ci world0)
  /\ store_post clock0 5 1 "x" (union_query cu) world0
                (UnionCmd_store clock0 5 1 cu world0)
  /\ fst (InterCmd_store clock0 5 1 ci world0) = (0, None)
  /\ fst (UnionCmd_store clock0 5 1 cu world0) = (3, None).
Proof.
  intros ci cu.
  destruct (store_returns_inserted_count clock0 5 1 ci cu world0 eq_refl)
    as [HI [HU _]].
  split; [reflexivity |].
  split; [exact HI |].
  split; [exact HU |].
  split; vm_compute; reflexivity.
Defined.

(** ** Scan: one page of the key registry *)

Lemma ids_ascending_weaken lo lo' rows :
  lo' <= lo -> ids_ascending lo rows = true -> ids_ascending lo' rows = true.
Proof.
  destruct rows as [| k t]; [easy |]. simpl. intros Hle H.
  apply andb_true_iff in H. destruct H as [H1 H2].
  apply Z.ltb_lt in H1. rewrite H2, andb_true_r. apply Z.ltb_lt. lia.
Qed.

Lemma ids_ascending_In lo rows k :
  ids_ascending lo rows = true -> In k rows -> lo < ID k.
Proof.
  revert lo. induction rows as [| a t IH]; intros lo H Hin; [easy |].
  simpl in H. apply andb_true_iff in H. destruct H as [H1 H2].
  apply Z.ltb_lt in H1. destruct Hin as [-> | Hin]; [assumption |].
  specialize (IH _ H2 Hin). lia.
Qed.

(** A [where] clause keeps the rowid order of the rows it lets through. *)
Lemma ids_ascending_filter p lo rows :
  ids_ascending lo rows = true -> ids_ascending lo (filter p rows) = true.
Proof.
  revert lo. induction rows as [| a t IH]; intros lo H; [easy |].
  simpl in H. apply andb_true_iff in H. destruct H as [H1 H2]. simpl.
  destruct (p a); simpl.
  - now rewrite H1, IH.
  - apply IH. apply ids_ascending_weaken with (lo := ID a); [| assumption].
    apply Z.ltb_lt in H1. lia.
Qed.



Lemma sql_limit_In {A} n (l : list A) x : In x (sql_limit n l) -> In x l.
Proof.
  unfold sql_limit. destruct (n <? 0); [easy |].
  intros H. rewrite <- (firstn_skipn (Z.to_nat n) l).
  apply in_or_app. now left.
Qed.



Lemma Tx_Scan_run clock glob cursor pattern n w :
  Tx_Scan clock glob cursor pattern n w
  = let keys :=
      sql_limit (if n =? 0 then scanPageSize else n)
        (filter (scan_match glob cursor pattern (now_at clock (ticks w)))
                (rkey (store w))) in
    ((mkScanResult (maxID_of keys) keys, None),
     mkWorld (store w) (S (ticks w)) (log w ++ [SqlScan])).
Proof. reflexivity. Qed.




(** ** Rename *)

(** Looking up the one row that can satisfy a condition. *)
Lemma find_the {A} (p : A -> bool) (l : list A) (v : A) :
  (forall x, In x l -> p x = true -> x = v) ->
  In v l -> p v = true -> find p l = Some v.
Proof.
  intros Hone Hin Hp. destruct (find p l) as [x |] eqn:E.
  - apply find_some in E. destruct E as [Hx Hpx]. f_equal. now apply Hone.
  - pose proof (find_none _ _ E v Hin). congruence.
Qed.

Lemma find_absent {A} (p : A -> bool) (l : list A) :
  (forall x, In x l -> p x = false) -> find p l = None.
Proof.
  intros H. destruct (find p l) as [x |] eqn:E; [| reflexivity].
  apply find_some in E. destruct E as [Hx Hpx]. rewrite (H x Hx) in Hpx.
  discriminate.
Qed.

Lemma Get_run clock key w :
  Get clock key w
  = ((match find (fun k => String.eqb (Name k) key
                           && live (now_at clock (ticks w)) k)
                 (rkey (store w)) with
      | Some k => k
      | None => emptyKey
      end, None),
     mkWorld (store w) (S (ticks w)) (log w ++ [SqlGet])).
Proof.
  unfold Get, bind, query, exec, ret. rewrite time_Now_run.
  cbn [store ticks log]. fold (now_at clock (ticks w)).
  now destruct (find _ _).
Qed.

(** A row with a non-zero id is not the empty record. *)
Lemma Exists_of_id k : ID k <> 0 -> Exists k = true.
Proof.
  intros H. unfold Exists, Key_eqb. cbn [ID emptyKey].
  destruct (Z.eqb_spec (ID k) 0); [contradiction | reflexivity].
Qed.

Lemma rename_rows_unique a b now st pre :
  names_unique (rkey st) = true ->
  In pre (rkey st) -> Name pre = a -> a <> b -> live now pre = true ->
  forall x, In x (rkey (snd (rename_rows a b now st))) ->
    x = renamed pre b now
    \/ (In x (rkey st) /\ Name x <> a /\ Name x <> b).
Proof.
  intros Hu Hin Hname Hab Hlive x Hx.
  unfold rename_rows in Hx.
  set (sel := fun k => String.eqb (Name k) a && live now k) in *.
  assert (Hsel : forall k, In k (rkey st) -> sel k = true -> k = pre).
  { intros k Hk Hs. unfold sel in Hs. apply andb_true_iff in Hs.
    destruct Hs as [Hs _]. apply String.eqb_eq in Hs.
    apply (names_unique_inj _ Hu); congruence. }
  assert (Hpre : sel pre = true).
  { unfold sel. now rewrite Hname, String.eqb_refl, Hlive. }
  destruct (filter sel (rkey st)) as [| old rest] eqn:Ef.
  - assert (In pre []) as Hno; [| destruct Hno].
    rewrite <- Ef. apply filter_In. now split.
  - assert (old = pre).
    { assert (In old (filter sel (rkey st))) as Ho
        by (rewrite Ef; now left).
      apply filter_In in Ho. destruct Ho as [Ho Hso]. now apply Hsel. }
    subst old. cbn [snd rkey] in Hx.
    apply in_map_iff in Hx. destruct Hx as [k [Hk Hkin]].
    apply filter_In in Hkin. destruct Hkin as [Hkin Hkeep].
    change (String.eqb (Name k) a && live now k) with (sel k) in Hk, Hkeep.
    destruct (sel k) eqn:Es.
    + left. now symmetry.
    + right. subst x. simpl in Hkeep. apply negb_true_iff in Hkeep.
      apply orb_false_iff in Hkeep. destruct Hkeep as [_ Hnb].
      split; [assumption |]. split.
      * intros Hka.
        assert (k = pre) by (apply (names_unique_inj _ Hu); congruence).
        subst k. congruence.
      * intros Hkb. rewrite Hkb, String.eqb_refl in Hnb. discriminate.
Qed.

Lemma rename_rows_moved a b now st pre :
  names_unique (rkey st) = true ->
  In pre (rkey st) -> Name pre = a -> live now pre = true ->
  In (renamed pre b now) (rkey (snd (rename_rows a b now st))).
Proof.
  intros Hu Hin Hname Hlive. unfold rename_rows.
  set (sel := fun k => String.eqb (Name k) a && live now k).
  assert (Hpre : sel pre = true).
  { unfold sel. now rewrite Hname, String.eqb_refl, Hlive. }
  destruct (filter sel (rkey st)) as [| old rest] eqn:Ef.
  - assert (In pre []) as Hno; [| destruct Hno].
    rewrite <- Ef. apply filter_In. now split.
  - assert (old = pre).
    { assert (In old (filter sel (rkey st))) as Ho
        by (rewrite Ef; now left).
      apply filter_In in Ho. destruct Ho as [Ho Hso].
      unfold sel in Hso. apply andb_true_iff in Hso.
      destruct Hso as [Hso _]. apply String.eqb_eq in Hso.
      apply (names_unique_inj _ Hu); congruence. }
    subst old. cbn [snd rkey].
    apply in_map_iff. exists pre.
    change (String.eqb (Name pre) a && live now pre) with (sel pre).
    rewrite Hpre. split; [reflexivity |].
    apply filter_In. split; [assumption |].
    change (String.eqb (Name pre) a && live now pre) with (sel pre).
    now rewrite Hpre.
Qed.

Lemma names_unique_filter p rows :
  names_unique rows = true -> names_unique (filter p rows) = true.
Proof.
  induction rows as [| k t IH]; intros H; [easy |].
  simpl in H. apply andb_true_iff in H. destruct H as [Hk Ht]. simpl.
  destruct (p k); [| now apply IH].
  simpl. rewrite (IH Ht), andb_true_r.
  apply negb_true_iff in Hk. apply negb_true_iff.
  apply existsb_false_iff. intros x Hx. apply filter_In in Hx.
  now apply (proj1 (existsb_false_iff _ _) Hk).
Qed.

(** The run of [Tx.Rename] on a live key and a different new name. *)
Lemma Tx_Rename_run clock a b w pre :
  names_unique (rkey (store w)) = true ->
  rowid_order (store w) = true ->
  In pre (rkey (store w)) -> Name pre = a -> a <> b ->
  live (now_at clock (ticks w)) pre = true ->
  Tx_Rename clock a b w
  = (None,
     mkWorld
       (snd (rename_rows a b (now_at clock (S (S (ticks w))))
               (snd (delete_where
                       (fun k => key_in [b] k
                                 && live (now_at clock (S (ticks w))) k)
                       (store w)))))
       (S (S (S (ticks w))))
       (((log w ++ [SqlGet]) ++ [SqlDelete]) ++ [SqlRename])).
Proof.
  intros Hu Hord Hin Hname Hab Hlive.
  unfold Tx_Rename, bind. rewrite Get_run.
  rewrite (find_the _ _ pre); [| | assumption |].
  - rewrite Exists_of_id.
    + cbn [negb]. destruct (String.eqb_spec a b); [contradiction |].
      unfold Delete, bind, exec, ret. rewrite time_Now_run.
      cbn [store ticks log]. unfold delete_where at 1.
      rewrite time_Now_run. cbn [store ticks log].
      unfold delete_where, now_at.
      destruct (rename_rows _ _ _ _). reflexivity.
    + pose proof (ids_ascending_In 0 _ pre Hord Hin). lia.
  - intros x Hx Hp. apply andb_true_iff in Hp. destruct Hp as [Hp _].
    apply String.eqb_eq in Hp. apply (names_unique_inj _ Hu); congruence.
  - now rewrite Hname, String.eqb_refl, Hlive.
Qed.

(** C5, as the code has it.  For a live key [a] with record [pre] and a
    name [b] other than [a], [rename(a, b)] succeeds; afterwards [get(a)]
    returns the empty record and, while the record has not expired,
    [get(b)] returns it under the new name with the same id, type and
    expiry, the version raised by one and the modification time set to the
    time of the rename. *)
Theorem rename_moves_record :
  forall (clock : nat -> Z) (a b : string) (w : World) (pre : Key),
    names_unique (rkey (store w)) = true ->
    rowid_order (store w) = true ->
    In pre (rkey (store w)) ->
    Name pre = a ->
    a <> b ->
    live (now_at clock (ticks w)) pre = true ->
    live (now_at clock (S (S (ticks w)))) pre = true ->
    let w1 := snd (Tx_Rename clock a b w) in
    fst (Tx_Rename clock a b w) = None
    /\ forall w2, store w2 = store w1 ->
         fst (Get clock a w2) = (emptyKey, None)
         /\ (live (now_at clock (ticks w2)) pre = true ->
             exists post,
               fst (Get clock b w2) = (post, None)
               /\ ID post = ID pre
               /\ Name post = b
               /\ Type_ post = Type_ pre
               /\ Version post = Version pre + 1
               /\ ETime post = ETime pre
               /\ MTime post = now_at clock (S (S (ticks w)))).
Proof.
  intros clock a b w pre Hu Hord Hin Hname Hab Hlive0 Hlive2 w1.
  unfold w1.
  rewrite (Tx_Rename_run clock a b w pre Hu Hord Hin Hname Hab Hlive0).
  cbn [fst snd store].
  set (now1 := now_at clock (S (ticks w))).
  set (now2 := now_at clock (S (S (ticks w)))).
  set (st1 := snd (delete_where (fun k => key_in [b] k && live now1 k)
                                (store w))).
  assert (Hu1 : names_unique (rkey st1) = true).
  { unfold st1, delete_where. cbn [snd rkey]. now apply names_unique_filter. }
  assert (Hin1 : In pre (rkey st1)).
  { unfold st1, delete_where. cbn [snd rkey]. apply filter_In.
    split; [assumption |]. rewrite key_in_single, Hname.
    destruct (String.eqb_spec a b); [contradiction | reflexivity]. }
  pose proof (rename_rows_unique a b now2 st1 pre Hu1 Hin1 Hname Hab Hlive2)
    as Hrows.
  pose proof (rename_rows_moved a b now2 st1 pre Hu1 Hin1 Hname Hlive2)
    as Hmoved.
  split; [reflexivity |].
  intros w2 Hst. split.
  - rewrite Get_run, Hst. rewrite find_absent; [reflexivity |].
    intros x Hx. destruct (Hrows x Hx) as [-> | [_ [Hna _]]].
    + cbn [renamed Name].
      destruct (String.eqb_spec b a); [congruence | reflexivity].
    + destruct (String.eqb_spec (Name x) a); [contradiction | reflexivity].
  - intros Hlive3. exists (renamed pre b now2).
    split; [| now repeat split].
    rewrite Get_run, Hst.
    rewrite (find_the _ _ (renamed pre b now2)); [reflexivity | | exact Hmoved |].
    + intros x Hx Hp. destruct (Hrows x Hx) as [-> | [_ [_ Hnb]]];
        [reflexivity |].
      apply andb_true_iff in Hp. destruct Hp as [Hp _].
      apply String.eqb_eq in Hp. contradiction.
    + cbn [renamed Name]. rewrite String.eqb_refl.
      unfold live in *. cbn [renamed ETime]. exact Hlive3.
Qed.

Lemma rename_moves_record_witness :
  let pre := mkKey 3 "z" 5 1 (Some 5000) 0 in
  let w1 := snd (Tx_Rename clock0 "z" "y" world0) in
  names_unique (rkey (store world0)) = true
  /\ rowid_order (store world0) = true
  /\ In pre (rkey (store world0))
  /\ Name pre = "z"
  /\ "z" <> "y"
  /\ live (now_at clock0 0) pre = true
  /\ live (now_at clock0 2) pre = true
  /\ fst (Tx_Rename clock0 "z" "y" world0) = None
  /\ fst (Get clock0 "z" w1) = (emptyKey, None)
  /\ fst (Get clock0 "y" w1) = (mkKey 3 "y" 5 2 (Some 5000) 1002, None).
Proof.
  intros pre w1.
  assert (Hin : In pre (rkey (store world0))) by (simpl; tauto).
  assert (Hne : "z" <> "y") by discriminate.
  destruct (rename_moves_record clock0 "z" "y" world0 pre
              eq_refl eq_refl Hin eq_refl Hne eq_refl eq_refl)
    as [Hok Hget].
  destruct (Hget w1 eq_refl) as [Ha Hb].
  destruct (Hb eq_refl) as [post [Hpost _]].
  repeat (split; [assumption || reflexivity |]).
  vm_compute. reflexivity.
Defined.

(** Renaming a key to its own name changes nothing. *)
Lemma rename_same_name_noop clock a w :
  store (snd (Tx_Rename clock a a w)) = store w.
Proof.
  unfold Tx_Rename, bind. rewrite Get_run. cbn [ret].
  destruct (negb (Exists _)); [reflexivity |].
  now rewrite String.eqb_refl.
Qed.

(** The claim as stated fails when the new name is the old one: the rename
    is a no-op and [get(a)] still returns the record, version unchanged. *)
Lemma rename_same_name_counterexample :
  fst (Tx_Rename clock0 "x" "x" world0) = None
  /\ fst (Get clock0 "x" (snd (Tx_Rename clock0 "x" "x" world0)))
     = (mkKey 1 "x" 5 1 None 0, None)
  /\ fst (Get clock0 "x" (snd (Tx_Rename clock0 "x" "x" world0)))
     <> (emptyKey, None).
Proof.
  split; [reflexivity |]. split; [reflexivity |].
  vm_compute. discriminate.
Qed.

(** ** Expire and persist *)

Lemma names_unique_map g rows :
  (forall x, Name (g x) = Name x) ->
  names_unique rows = true -> names_unique (map g rows) = true.
Proof.
  intros Hg. induction rows as [| k t IH]; intros H; [easy |].
  simpl in *. apply andb_true_iff in H. destruct H as [Hk Ht].
  rewrite (IH Ht), andb_true_r.
  apply negb_true_iff in Hk. apply negb_true_iff.
  apply existsb_false_iff. intros x Hx.
  apply in_map_iff in Hx. destruct Hx as [y [<- Hy]].
  rewrite !Hg. now apply (proj1 (existsb_false_iff _ _) Hk).
Qed.

Lemma affected_positive {A} (p : A -> bool) (l : list A) (x : A) :
  In x l -> p x = true -> (Z.of_nat (List.length (filter p l)) >? 0) = true.
Proof.
  intros Hin Hp.
  assert (Hf : In x (filter p l)) by (apply filter_In; now split).
  destruct (filter p l); [destruct Hf |].
  simpl List.length. apply Z.gtb_lt. lia.
Qed.

(** [update ... set etime = e where key = :key and live] on a store with
    unique names: the live row of that name gets the new expiry. *)
Lemma update_etime_row now key e st pre :
  names_unique (rkey st) = true ->
  In pre (rkey st) -> Name pre = key -> live now pre = true ->
  let r := update_where
             (fun k => String.eqb (Name k) key && live now k)
             (fun k => with_etime k e) st in
  (fst r >? 0) = true
  /\ names_unique (rkey (snd r)) = true
  /\ In (with_etime pre e) (rkey (snd r)).
Proof.
  intros Hu Hin Hname Hlive r. unfold r, update_where. cbn [fst snd rkey].
  assert (Hp : String.eqb (Name pre) key && live now pre = true)
    by now rewrite Hname, String.eqb_refl, Hlive.
  split; [| split].
  - now apply (affected_positive _ _ pre).
  - apply names_unique_map; [| assumption].
    intros x.
    destruct (String.eqb (Name x) key && live now x); reflexivity.
  - apply in_map_iff. exists pre. now rewrite Hp.
Qed.

Lemma Tx_Expire_run clock key ttl w :
  Tx_Expire clock key ttl w
  = let r := update_where
               (fun k => String.eqb (Name k) key
                         && live (now_at clock (S (ticks w))) k)
               (fun k => with_etime k (Some (UnixMilli (clock (ticks w) + ttl))))
               (store w) in
    ((fst r >? 0, None),
     mkWorld (snd r) (S (S (ticks w))) (log w ++ [SqlExpire])).
Proof. reflexivity. Qed.

Lemma Tx_Persist_run clock key w :
  Tx_Persist clock key w
  = let r := update_where
               (fun k => String.eqb (Name k) key
                         && live (now_at clock (ticks w)) k)
               (fun k => with_etime k None) (store w) in
    ((fst r >? 0, None),
     mkWorld (snd r) (S (ticks w)) (log w ++ [SqlPersist])).
Proof. reflexivity. Qed.

(** C9. For a live key [k] with record [pre] and a duration [ttl] that has
    not elapsed when persist runs, [expire(k, ttl)] and then [persist(k)]
    both report an update, and [get(k)] afterwards returns the record with
    no expiry ([etime] null) and nothing else changed. *)
Theorem expire_then_persist_clears_etime :
  forall (clock : nat -> Z) (k : string) (ttl : Z) (w : World) (pre : Key),
    names_unique (rkey (store w)) = true ->
    In pre (rkey (store w)) ->
    Name pre = k ->
    live (now_at clock (S (ticks w))) pre = true ->
    now_at clock (S (S (ticks w))) < UnixMilli (clock (ticks w) + ttl) ->
    let w1 := snd (Tx_Expire clock k ttl w) in
    let w2 := snd (Tx_Persist clock k w1) in
    fst (Tx_Expire clock k ttl w) = (true, None)
    /\ fst (Tx_Persist clock k w1) = (true, None)
    /\ forall w3, store w3 = store w2 ->
         fst (Get clock k w3) = (with_etime pre None, None)
         /\ ETime (fst (fst (Get clock k w3))) = None.
Proof.
  intros clock k ttl w pre Hu Hin Hname Hlive Hleft w1 w2.
  unfold w2, w1. rewrite Tx_Expire_run. cbv zeta. cbn [fst snd].
  set (at_ms := UnixMilli (clock (ticks w) + ttl)) in *.
  destruct (update_etime_row (now_at clock (S (ticks w))) k (Some at_ms)
              (store w) pre Hu Hin Hname Hlive) as [Hn1 [Hu1 Hin1]].
  rewrite Hn1. rewrite Tx_Persist_run. cbv zeta. cbn [fst snd store ticks].
  set (st1 := snd (update_where _ _ (store w))) in *.
  assert (Hlive1 : live (now_at clock (S (S (ticks w))))
                        (with_etime pre (Some at_ms)) = true).
  { unfold live. cbn [with_etime ETime]. now apply Z.ltb_lt. }
  destruct (update_etime_row (now_at clock (S (S (ticks w)))) k None
              st1 (with_etime pre (Some at_ms)) Hu1 Hin1 Hname Hlive1)
    as [Hn2 [Hu2 Hin2]].
  rewrite Hn2.
  split; [reflexivity | split; [reflexivity |]].
  intros w3 Hst.
  assert (Hget : fst (Get clock k w3) = (with_etime pre None, None)).
  { rewrite Get_run, Hst. cbn [fst].
    rewrite (find_the _ _ (with_etime pre None)); [reflexivity | | exact Hin2 |].
    - intros x Hx Hp. apply andb_true_iff in Hp. destruct Hp as [Hp _].
      apply String.eqb_eq in Hp.
      apply (names_unique_inj _ Hu2); [assumption | exact Hin2 |].
      cbn [with_etime Name]. congruence.
    - cbn [with_etime Name]. now rewrite Hname, String.eqb_refl. }
  split; [exact Hget |]. now rewrite Hget.
Qed.

Lemma expire_then_persist_clears_etime_witness :
  let pre := mkKey 2 "y" 5 1 None 0 in
  let w1 := snd (Tx_Expire clock0 "y" 60000000000 world0) in
  let w2 := snd (Tx_Persist clock0 "y" w1) in
  names_unique (rkey (store world0)) = true
  /\ In pre (rkey (store world0))
  /\ Name pre = "y"
  /\ live (now_at clock0 1) pre = true
  /\ now_at clock0 2 < UnixMilli (clock0 0 + 60000000000)
  /\ ETime (fst (fst (Get clock0 "y" w1))) = Some 61000
  /\ ETime (fst (fst (Get clock0 "y" w2))) = None.
Proof.
  intros pre w1 w2.
  assert (Hin : In pre (rkey (store world0))) by (simpl; tauto).
  assert (Hleft : now_at clock0 2 < UnixMilli (clock0 0 + 60000000000))
    by (vm_compute; reflexivity).
  destruct (expire_then_persist_clears_etime clock0 "y" 60000000000 world0
              pre eq_refl Hin eq_refl eq_refl Hleft) as [_ [_ Hget]].
  destruct (Hget w2 eq_refl) as [_ Hnull].
  repeat (split; [assumption || reflexivity |]).
  exact Hnull.
Defined.

(** ** Intersection of a key with itself *)

Lemma joined_In now p st z :
  In z (joined now p st) ->
  exists k, In k (rkey st) /\ key_id z = ID k /\ p k = true.
Proof.
  unfold joined. intros H. apply in_flat_map in H.
  destruct H as [z0 [_ Hz]]. apply in_map_iff in Hz.
  destruct Hz as [k [-> Hk]]. apply filter_In in Hk. destruct Hk as [Hk Hp].
  apply andb_true_iff in Hp. destruct Hp as [Hp Hpk].
  apply andb_true_iff in Hp. destruct Hp as [Hid _].
  apply Z.eqb_eq in Hid. now exists k.
Qed.

Lemma nodup_one_value (l : list Z) (v : Z) :
  (forall y, In y l -> y = v) ->
  (List.length (nodup Z.eq_dec l) <= 1)%nat.
Proof.
  induction l as [| a t IH]; intros H; simpl; [lia |].
  destruct (in_dec Z.eq_dec a t) as [Hin | Hout].
  - apply IH. intros y Hy. apply H. now right.
  - destruct t as [| b t'].
    + simpl. lia.
    + exfalso. apply Hout. left.
      rewrite (H a (or_introl eq_refl)).
      apply H. right. now left.
Qed.

(** With the same name given twice, [count(distinct key_id)] never reaches
    the [:nkeys] the code binds, [len(c.keys) = 2]: no group passes. *)
Lemma inter_rows_same_key_twice a now x st :
  names_unique (rkey st) = true ->
  inter_rows a now [x; x] 2 st = [].
Proof.
  intros Hu. unfold inter_rows, select_grouped.
  rewrite filter_none; [reflexivity |].
  intros [e rows] Hg. cbn [snd].
  unfold group_by_elem in Hg. apply in_map_iff in Hg.
  destruct Hg as [e' [Heq _]]. inversion Heq; subst e' rows. clear Heq.
  set (rows := filter (fun z => String.eqb (zelem z) e)
                      (joined now (key_in [x; x]) st)).
  assert (Hsame : forall z1 z2, In z1 rows -> In z2 rows ->
                                key_id z1 = key_id z2).
  { intros z1 z2 H1 H2. unfold rows in H1, H2.
    apply filter_In in H1. apply filter_In in H2.
    destruct H1 as [H1 _], H2 as [H2 _].
    apply joined_In in H1. apply joined_In in H2.
    destruct H1 as [k1 [Hk1 [Hid1 Hp1]]], H2 as [k2 [Hk2 [Hid2 Hp2]]].
    assert (Hn : forall k, key_in [x; x] k = true -> Name k = x).
    { intros k Hk. unfold key_in in Hk. simpl in Hk.
      destruct (String.eqb_spec (Name k) x); [assumption | discriminate]. }
    assert (k1 = k2).
    { apply (names_unique_inj _ Hu); try assumption.
      now rewrite (Hn k1 Hp1), (Hn k2 Hp2). }
    congruence. }
  unfold count_distinct_key_id. apply Z.eqb_neq.
  assert ((List.length (nodup Z.eq_dec (map key_id rows)) <= 1)%nat); [| lia].
  destruct rows as [| z0 t] eqn:Er; [simpl; lia |].
  apply (nodup_one_value _ (key_id z0)).
  intros y Hy. apply in_map_iff in Hy. destruct Hy as [z [<- Hz]].
  apply Hsame; [assumption | now left].
Qed.

(** C3, what the code does.  The intersection of a key with itself, run
    through either handle, is empty under every aggregate, whatever the set
    holds: the scores are neither doubled nor kept. *)
Theorem inter_key_with_itself_is_empty :
  forall (clock : nat -> Z) (x : string) (c : InterCmd) (w : World),
    names_unique (rkey (store w)) = true ->
    i_keys c = [x; x] ->
    i_db c <> None \/ i_tx c <> None ->
    fst (InterCmd_Run clock c w) = ([], None).
Proof.
  intros clock x c w Hu Hkeys Hh.
  assert (Hinter : fst (InterCmd_inter clock c w) = ([], None)).
  { unfold InterCmd_inter, bind, query, exec, ret. rewrite time_Now_run.
    cbn [store ticks log fst]. rewrite Hkeys. cbn [List.length Z.of_nat].
    change (Z.pos (Pos.of_succ_nat 1)) with 2.
    now rewrite inter_rows_same_key_twice. }
  unfold InterCmd_Run.
  through_handle (i_db c) (i_tx c) Hh; exact Hinter.
Qed.

Lemma inter_key_with_itself_is_empty_witness :
  let c := mkInterCmd None (Some OpenTx) "" ["x"; "x"] Sum in
  names_unique (rkey (store world0)) = true
  /\ i_keys c = ["x"; "x"]
  /\ (i_db c <> None \/ i_tx c <> None)
  /\ fst (Get clock0 "x" world0) = (mkKey 1 "x" 5 1 None 0, None)
  /\ members 1 store0
     = [mkZRow 1 "a" 1%float; mkZRow 1 "b" 2%float; mkZRow 1 "c" 3%float]
  /\ fst (InterCmd_Run clock0 c world0) = ([], None).
Proof.
  intros c.
  assert (Hh : i_db c <> None \/ i_tx c <> None) by (right; discriminate).
  split; [reflexivity |]. split; [reflexivity |]. split; [exact Hh |].
  split; [reflexivity |]. split; [reflexivity |].
  exact (inter_key_with_itself_is_empty clock0 "x" c world0
           eq_refl eq_refl Hh).
Defined.

(** Over the key alone, the intersection is the set as it is. *)
Example inter_single_key :
  fst (InterCmd_Run clock0 (mkInterCmd None (Some OpenTx) "" ["x"] Sum) world0)
  = ([mkItem "a" 1%float; mkItem "b" 2%float; mkItem "c" 3%float], None).
Proof. vm_compute. reflexivity. Qed.

(** ** The scanner after the last page *)

Lemma Scanner_Scan_fetch clock glob sc w :
  (sc_index sc >=? Z.of_nat (List.length (sc_keys sc))) = true ->
  Scanner_Scan clock glob sc w
  = let out := fst (fst (Tx_Scan clock glob (sc_cursor sc) (sc_pattern sc)
                                 (sc_pageSize sc) w)) in
    let w' := mkWorld (store w) (S (ticks w)) (log w ++ [SqlScan]) in
    let sc' := mkScanner (Cursor out) (sc_pattern sc) (sc_pageSize sc) 0
                         (sc_cur sc) (Keys out) (sc_err sc) in
    if Z.of_nat (List.length (Keys out)) =? 0
    then ((false, sc'), w')
    else (Scanner_advance sc', w').
Proof.
  intros Hend. unfold Scanner_Scan. rewrite Hend.
  unfold bind. rewrite Tx_Scan_run. cbv zeta.
  cbn [fst snd Keys Cursor sc_keys].
  destruct (Z.of_nat (List.length _) =? 0); reflexivity.
Qed.

(** C2, what the code does.  When a call to [Scan] returns false (the
    fetch itself cannot fail here), it has fetched an empty page and left
    the scanner with cursor 0, an empty buffer and index 0.  Every later call then sends [sqlScan] to the store
    again, from cursor 0, and returns true exactly when that first page has
    a key: the iteration starts over instead of staying at its end. *)
Theorem scanner_refetches_after_empty_page :
  forall (clock : nat -> Z) (glob : string -> string -> bool)
         (sc : Scanner) (w : World),
    fst (fst (Scanner_Scan clock glob sc w)) = false ->
    let sc1 := snd (fst (Scanner_Scan clock glob sc w)) in
    sc_cursor sc1 = 0 /\ sc_keys sc1 = [] /\ sc_index sc1 = 0
    /\ forall w2,
         log (snd (Scanner_Scan clock glob sc1 w2)) = log w2 ++ [SqlScan]
         /\ (fst (fst (Scanner_Scan clock glob sc1 w2)) = true <->
             Keys (fst (fst (Tx_Scan clock glob 0 (sc_pattern sc)
                                     (sc_pageSize sc) w2))) <> []).
Proof.
  intros clock glob sc w Hfalse sc1.
  assert (Hsc1 : sc_cursor sc1 = 0 /\ sc_keys sc1 = [] /\ sc_index sc1 = 0
                 /\ sc_pattern sc1 = sc_pattern sc
                 /\ sc_pageSize sc1 = sc_pageSize sc).
  { unfold sc1. clear sc1. unfold Scanner_Scan in *.
    destruct (sc_index sc >=? Z.of_nat (List.length (sc_keys sc))).
    - unfold bind in *. rewrite Tx_Scan_run in *. cbv zeta in *.
      cbn [sc_keys Keys] in *.
      destruct (sql_limit _ _) as [| k t] eqn:Epage.
      + cbn. repeat split; reflexivity.
      + cbn in Hfalse. discriminate.
    - cbn in Hfalse. discriminate. }
  destruct Hsc1 as [Hc [Hk [Hi [Hp Hs]]]].
  split; [assumption | split; [assumption | split; [assumption |]]].
  intros w2. rewrite Scanner_Scan_fetch.
  2:{ rewrite Hi, Hk. reflexivity. }
  cbv zeta. rewrite Hc, Hp, Hs.
  destruct (Keys (fst (fst (Tx_Scan clock glob 0 (sc_pattern sc)
                                    (sc_pageSize sc) w2)))) as [| k t].
  - cbn. split; [reflexivity |]. split; [discriminate | intros H; now elim H].
  - cbn. split; [reflexivity |]. split; [discriminate | reflexivity].
Qed.

Lemma scanner_refetches_after_empty_page_witness :
  let r1 := Scanner_Scan clock0 glob0 scanner_at_end world0 in
  let r2 := Scanner_Scan clock0 glob0 (snd (fst r1)) (snd r1) in
  fst (fst r1) = false
  /\ log (snd r1) = [SqlScan]
  /\ fst (fst r2) = true
  /\ Scanner_Key (snd (fst r2)) = mkKey 1 "x" 5 1 None 0
  /\ log (snd r2) = [SqlScan; SqlScan].
Proof.
  intros r1 r2.
  assert (Hend : fst (fst r1) = false) by reflexivity.
  destruct (scanner_refetches_after_empty_page clock0 glob0 scanner_at_end
              world0 Hend) as [_ [_ [_ Hnext]]].
  destruct (Hnext (snd r1)) as [Hlog Htrue].
  split; [exact Hend |]. split; [reflexivity |].
  split; [apply Htrue; vm_compute; discriminate |].
  split; [reflexivity |]. exact Hlog.
Defined.

(** From a fresh scanner over the four keys of the store: four keys, the
    end, and then the first key once more, with three fetches in all. *)
Example scanner_six_calls :
  let step := fun s => Scanner_Scan clock0 glob0 (snd (fst s)) (snd s) in
  let r1 := Scanner_Scan clock0 glob0 (newScanner "*" 0) world0 in
  let r2 := step r1 in
  let r3 := step r2 in
  let r4 := step r3 in
  let r5 := step r4 in
  let r6 := step r5 in
  map (fun r => fst (fst r)) [r1; r2; r3; r4; r5; r6]
  = [true; true; true; true; false; true]
  /\ Scanner_Key (snd (fst r6)) = mkKey 1 "x" 5 1 None 0
  /\ log (snd r6) = [SqlScan; SqlScan; SqlScan].
Proof. vm_compute. repeat split; reflexivity. Qed.

(** ** Count, Exists and Delete *)

Lemma names_unique_NoDup rows :
  names_unique rows = true <-> NoDup (map Name rows).
Proof.
  induction rows as [| k t IH]; simpl.
  - split; [constructor | reflexivity].
  - rewrite andb_true_iff, negb_true_iff, existsb_false_iff, IH. split.
    + intros [Hk Ht]. constructor; [| assumption].
      intros Hin. apply in_map_iff in Hin. destruct Hin as [x [Hx Hin]].
      specialize (Hk x Hin). rewrite Hx, String.eqb_refl in Hk. discriminate.
    + intros H. inversion H as [| ? ? Hk Ht]; subst. split; [| assumption].
      intros x Hx. destruct (String.eqb_spec (Name x) (Name k)) as [E | E];
        [| reflexivity].
      exfalso. apply Hk. rewrite <- E. now apply in_map.
Qed.

Lemma names_NoDup_filter (keep : Key -> bool) (rows : list Key) :
  NoDup (map Name rows) -> NoDup (map Name (filter keep rows)).
Proof.
  intros Hnd. induction rows as [| k t IH]; simpl; [constructor |].
  inversion Hnd as [| ? ? Hk Ht]; subst.
  destruct (keep k); simpl; [| now apply IH].
  constructor; [| now apply IH].
  intros Hin. apply Hk. apply in_map_iff in Hin.
  destruct Hin as [x [Hx Hin]]. apply filter_In in Hin.
  rewrite <- Hx. apply in_map. tauto.
Qed.

Lemma key_in_spec keys k : key_in keys k = true <-> In (Name k) keys.
Proof.
  unfold key_in. rewrite existsb_exists. split.
  - intros [x [Hx He]]. apply String.eqb_eq in He. now subst.
  - intros H. exists (Name k). split; [assumption | apply String.eqb_refl].
Qed.

Lemma Count_run clock keys w :
  Count clock keys w
  = ((Z.of_nat (List.length
        (filter (fun k => key_in keys k && live (now_at clock (ticks w)) k)
                (rkey (store w)))), None),
     mkWorld (store w) (S (ticks w)) (log w ++ [SqlCount])).
Proof. reflexivity. Qed.

Lemma Delete_run clock keys w :
  Delete clock keys w
  = ((fst (delete_where
             (fun k => key_in keys k && live (now_at clock (ticks w)) k)
             (store w)), None),
     mkWorld (snd (delete_where
                     (fun k => key_in keys k
                               && live (now_at clock (ticks w)) k)
                     (store w)))
             (S (ticks w)) (log w ++ [SqlDelete])).
Proof. reflexivity. Qed.

(** A delete whose condition no row meets changes nothing. *)
Lemma delete_where_none p st :
  (forall k, In k (rkey st) -> p k = false) -> delete_where p st = (0, st).
Proof.
  intros Hnone. unfold delete_where.
  rewrite (filter_none _ _ Hnone), cascade_nil. simpl.
  rewrite filter_all; [now rewrite store_eta |].
  intros x Hx. now rewrite (Hnone x Hx).
Qed.

(** X1. [Count] returns the number of distinct names among its arguments
    that have a live record: a name given twice counts once, a missing or
    expired name counts for nothing.  The store is left as it is. *)
Theorem Count_distinct_live_names :
  forall (clock : nat -> Z) (keys : list string) (w : World),
    names_unique (rkey (store w)) = true ->
    fst (Count clock keys w)
    = (Z.of_nat (List.length
         (filter (has_live (now_at clock (ticks w)) (rkey (store w)))
                 (nodup string_dec keys))), None)
    /\ store (snd (Count clock keys w)) = store w.
Proof.
  intros clock keys w Hu. rewrite Count_run. cbn [fst snd store].
  split; [| reflexivity]. do 2 f_equal.
  set (now := now_at clock (ticks w)).
  set (p := fun k => key_in keys k && live now k).
  rewrite <- (length_map Name (filter p (rkey (store w)))).
  apply Permutation_length, NoDup_Permutation.
  - apply names_NoDup_filter. now apply names_unique_NoDup.
  - apply NoDup_filter, NoDup_nodup.
  - intros name. rewrite in_map_iff, filter_In, nodup_In. unfold has_live.
    rewrite existsb_exists. split.
    + intros [k [Hname Hk]]. apply filter_In in Hk. destruct Hk as [Hk Hp].
      unfold p in Hp. apply andb_true_iff in Hp. destruct Hp as [Hin Hl].
      apply key_in_spec in Hin. subst name. split; [assumption |].
      exists k. split; [assumption |]. now rewrite String.eqb_refl, Hl.
    + intros [Hin [k [Hk Hp]]]. apply andb_true_iff in Hp.
      destruct Hp as [Hn Hl]. apply String.eqb_eq in Hn. subst name.
      exists k. split; [reflexivity |]. apply filter_In. split; [assumption |].
      unfold p. rewrite Hl, andb_true_r. now apply key_in_spec.
Qed.

Lemma Count_distinct_live_names_witness :
  names_unique (rkey (store world0)) = true
  /\ fst (Count clock0 ["x"; "x"; "nokey"; "z"] world0) = (2, None).
Proof.
  split; [reflexivity |].
  destruct (Count_distinct_live_names clock0 ["x"; "x"; "nokey"; "z"] world0
              eq_refl) as [Hn _].
  rewrite Hn. vm_compute. reflexivity.
Defined.

(** X2. [Exists] and [Get], asked at the same instant, agree: [Exists]
    reports true exactly when [Get] returns a record that exists. *)
Theorem Exists_agrees_with_Get :
  forall (clock : nat -> Z) (key : string) (w : World),
    rowid_order (store w) = true ->
    fst (Tx_Exists clock key w)
    = (Exists (fst (fst (Get clock key w))), None).
Proof.
  intros clock key w Hord.
  unfold Tx_Exists, bind, ret. rewrite Count_run, Get_run. cbn [fst snd].
  f_equal.
  set (now := now_at clock (ticks w)).
  rewrite (filter_ext _ (fun k => String.eqb (Name k) key && live now k)).
  2:{ intros k. now rewrite key_in_single. }
  destruct (find _ (rkey (store w))) as [k |] eqn:Ef.
  - apply find_some in Ef. destruct Ef as [Hin Hp].
    rewrite (affected_positive _ _ k Hin Hp).
    symmetry. apply Exists_of_id.
    pose proof (ids_ascending_In 0 _ k Hord Hin). lia.
  - rewrite filter_none; [reflexivity |].
    intros x Hx. exact (find_none _ _ Ef x Hx).
Qed.

Lemma Exists_agrees_with_Get_witness :
  rowid_order (store world0) = true
  /\ fst (Tx_Exists clock0 "z" world0) = (true, None)
  /\ fst (Tx_Exists clock0 "nokey" world0) = (false, None).
Proof.
  split; [reflexivity |].
  rewrite (Exists_agrees_with_Get clock0 "z" world0 eq_refl).
  rewrite (Exists_agrees_with_Get clock0 "nokey" world0 eq_refl).
  split; reflexivity.
Defined.

(** X3. [Delete] returns what [Count] would have returned at that instant,
    keeps every row that is not a live record of one of the names, and
    leaves none of the names live: from then on, as long as the clock does
    not run backwards, [Count] of the same names is 0. *)
Theorem Delete_removes_live_keys :
  forall (clock : nat -> Z) (keys : list string) (w w2 : World),
    store w2 = store (snd (Delete clock keys w)) ->
    now_at clock (ticks w) <= now_at clock (ticks w2) ->
    fst (Delete clock keys w) = fst (Count clock keys w)
    /\ (forall k, In k (rkey (store w)) ->
                  key_in keys k && live (now_at clock (ticks w)) k = false ->
                  In k (rkey (store w2)))
    /\ fst (Count clock keys w2) = (0, None).
Proof.
  intros clock keys w w2 Hst Hclock.
  rewrite Delete_run in *. rewrite !Count_run. cbn [fst snd store] in *.
  unfold delete_where in *. cbn [fst snd rkey] in *.
  split; [reflexivity |]. split.
  - intros k Hk Hp. rewrite Hst. cbn [rkey]. apply filter_In.
    split; [assumption |]. now rewrite Hp.
  - rewrite Hst. cbn [rkey]. rewrite filter_none; [reflexivity |].
    intros k Hk. apply filter_In in Hk. destruct Hk as [_ Hkeep].
    apply negb_true_iff in Hkeep.
    destruct (key_in keys k); [| reflexivity]. simpl in *.
    unfold live in *. destruct (ETime k) as [e |]; [| discriminate].
    apply Z.ltb_ge in Hkeep. apply Z.ltb_ge. lia.
Qed.

Lemma Delete_removes_live_keys_witness :
  let w1 := snd (Delete clock0 ["x"; "z"; "nokey"] world0) in
  store w1 = store w1
  /\ now_at clock0 (ticks world0) <= now_at clock0 (ticks w1)
  /\ fst (Delete clock0 ["x"; "z"; "nokey"] world0) = (2, None)
  /\ fst (Count clock0 ["x"; "z"; "nokey"] w1) = (0, None).
Proof.
  intros w1.
  assert (Hclock : now_at clock0 (ticks world0) <= now_at clock0 (ticks w1))
    by (vm_compute; discriminate).
  destruct (Delete_removes_live_keys clock0 ["x"; "z"; "nokey"] world0 w1
              eq_refl Hclock) as [Hn [_ Hgone]].
  split; [reflexivity |]. split; [exact Hclock |].
  split; [rewrite Hn; reflexivity | exact Hgone].
Defined.

(** X4. [Delete] of names that have no live record (missing names, expired
    ones, or no name at all) returns 0 and leaves the store untouched. *)
Theorem Delete_missing_is_noop :
  forall (clock : nat -> Z) (keys : list string) (w : World),
    (forall k, In k (rkey (store w)) -> In (Name k) keys ->
               live (now_at clock (ticks w)) k = false) ->
    fst (Delete clock keys w) = (0, None)
    /\ store (snd (Delete clock keys w)) = store w.
Proof.
  intros clock keys w Hdead. rewrite Delete_run.
  rewrite delete_where_none; [now split |].
  intros k Hk. destruct (key_in keys k) eqn:E; [| reflexivity].
  apply key_in_spec in E. now rewrite (Hdead k Hk E).
Qed.

Lemma Delete_missing_is_noop_witness :
  let late := mkWorld store0 5000 [] in
  (forall k, In k (rkey (store late)) -> In (Name k) ["z"; "nokey"] ->
             live (now_at clock0 (ticks late)) k = false)
  /\ fst (Delete clock0 ["z"; "nokey"] late) = (0, None)
  /\ store (snd (Delete clock0 ["z"; "nokey"] late)) = store late.
Proof.
  intros late.
  assert (Hdead : forall k, In k (rkey (store late)) ->
                   In (Name k) ["z"; "nokey"] ->
                   live (now_at clock0 (ticks late)) k = false).
  { intros k Hk Hn. simpl in Hk.
    destruct Hk as [<- | [<- | [<- | [<- | []]]]]; simpl in Hn;
      try (destruct Hn as [Hn | [Hn | []]]; discriminate).
    reflexivity. }
  split; [exact Hdead |].
  exact (Delete_missing_is_noop clock0 ["z"; "nokey"] late Hdead).
Defined.

(** ** The registry writes keep the schema invariants *)

Lemma wf_parts st :
  wf st = true <->
  names_unique (rkey st) = true /\ rowid_order st = true /\ fk_ok st = true.
Proof.
  unfold wf. rewrite !andb_true_iff. tauto.
Qed.

Lemma ids_ascending_map g lo rows :
  (forall k, In k rows -> ID (g k) = ID k) ->
  ids_ascending lo (map g rows) = ids_ascending lo rows.
Proof.
  revert lo. induction rows as [| k t IH]; intros lo Hg; [reflexivity |].
  simpl. rewrite (Hg k (or_introl eq_refl)). f_equal.
  apply IH. intros x Hx. apply Hg. now right.
Qed.

(** Referential integrity, row by row. *)
Lemma fk_ok_carry st' :
  (forall z, In z (rzset st') ->
             exists k, In k (rkey st') /\ ID k = key_id z) ->
  fk_ok st' = true.
Proof.
  intros H. unfold fk_ok. apply forallb_forall. intros z Hz.
  destruct (H z Hz) as [k [Hk Hid]]. apply existsb_exists.
  exists k. split; [assumption | now apply Z.eqb_eq].
Qed.

Lemma fk_ok_In st z :
  fk_ok st = true -> In z (rzset st) ->
  exists k, In k (rkey st) /\ ID k = key_id z.
Proof.
  intros H Hz. pose proof (proj1 (forallb_forall _ _) H z Hz) as Hex.
  apply existsb_exists in Hex. destruct Hex as [k [Hk Hid]].
  exists k. split; [assumption | now apply Z.eqb_eq].
Qed.

Lemma delete_where_wf p st : wf st = true -> wf (snd (delete_where p st)) = true.
Proof.
  rewrite !wf_parts. intros [Hu [Hord Hfk]]. repeat split.
  - unfold delete_where. cbn [snd rkey]. now apply names_unique_filter.
  - unfold rowid_order, delete_where. cbn [snd rkey].
    now apply ids_ascending_filter.
  - now apply delete_where_fk_ok.
Qed.

Lemma update_where_wf p f st :
  (forall k, ID (f k) = ID k /\ Name (f k) = Name k) ->
  wf st = true -> wf (snd (update_where p f st)) = true.
Proof.
  intros Hf. rewrite !wf_parts. intros [Hu [Hord Hfk]].
  unfold update_where, rowid_order. cbn [snd rkey rzset]. repeat split.
  - apply names_unique_map; [| assumption].
    intros x. destruct (p x); [apply Hf | reflexivity].
  - rewrite ids_ascending_map; [assumption |].
    intros x _. destruct (p x); [apply Hf | reflexivity].
  - apply fk_ok_carry. cbn [rkey rzset]. intros z Hz.
    destruct (fk_ok_In st z Hfk Hz) as [k [Hk Hid]].
    exists (if p k then f k else k). split.
    + apply in_map_iff. now exists k.
    + destruct (p k); [now rewrite (proj1 (Hf k)) | assumption].
Qed.

(** Rewriting the one selected row to a name that no kept row holds keeps
    names unique. *)
Lemma rename_names_NoDup (sel keep : Key -> bool) (new : Key) rows :
  NoDup (map Name rows) ->
  (forall k1 k2, In k1 rows -> In k2 rows ->
                 sel k1 = true -> sel k2 = true -> k1 = k2) ->
  (forall r, keep r = true -> sel r = false -> Name r <> Name new) ->
  NoDup (map Name (map (fun k => if sel k then new else k)
                       (filter keep rows))).
Proof.
  intros Hu Hone Hnb. induction rows as [| k t IH]; [constructor |].
  inversion Hu as [| ? ? Hk Ht]; subst. simpl.
  assert (IHt : NoDup (map Name (map (fun k => if sel k then new else k)
                                     (filter keep t)))).
  { apply IH; [assumption |]. intros k1 k2 H1 H2.
    apply Hone; now right. }
  destruct (keep k) eqn:Ekeep; [| exact IHt].
  simpl. constructor; [| exact IHt].
  intros Hin. apply in_map_iff in Hin. destruct Hin as [y [Hy Hin]].
  apply in_map_iff in Hin. destruct Hin as [x [<- Hx]].
  apply filter_In in Hx. destruct Hx as [Hx Hkx].
  apply Hk.
  destruct (sel k) eqn:Esk, (sel x) eqn:Esx.
  - assert (x = k) by (apply Hone; simpl; tauto).
    subst x. now apply in_map.
  - exfalso. apply (Hnb x Hkx Esx). exact Hy.
  - exfalso. apply (Hnb k Ekeep Esk). now symmetry.
  - rewrite <- Hy. now apply in_map.
Qed.

(** [sqlRename] rewrites at most one row (names are unique), keeps its id,
    and clears the new name first: the invariants survive. *)
Lemma rename_rows_wf a b now st :
  wf st = true -> wf (snd (rename_rows a b now st)) = true.
Proof.
  intros Hwf. unfold rename_rows.
  set (sel := fun k => String.eqb (Name k) a && live now k).
  destruct (filter sel (rkey st)) as [| old rest] eqn:Ef; [exact Hwf |].
  apply wf_parts in Hwf. destruct Hwf as [Hu [Hord Hfk]].
  assert (Hold : In old (rkey st) /\ sel old = true).
  { apply filter_In. rewrite Ef. now left. }
  assert (Hone : forall k, In k (rkey st) -> sel k = true -> k = old).
  { intros k Hk Hs. apply (names_unique_inj _ Hu); try tauto.
    destruct Hold as [_ Hso]. unfold sel in Hs, Hso.
    apply andb_true_iff in Hs, Hso.
    destruct Hs as [Hs _], Hso as [Hso _].
    apply String.eqb_eq in Hs, Hso. congruence. }
  set (new := mkKey (ID old) b (Type_ old) (Version old + 1) (ETime old) now).
  set (keep := fun k =>
         sel k || negb ((ID k =? ID new) || String.eqb (Name k) b)).
  set (g := fun k => if sel k then new else k).
  assert (Hgid : forall k, In k (rkey st) -> ID (g k) = ID k).
  { intros k Hk. unfold g. destruct (sel k) eqn:Es; [| reflexivity].
    now rewrite (Hone k Hk Es). }
  cbn [snd]. apply wf_parts. unfold rowid_order. cbn [rkey rzset].
  repeat split.
  - (* names *)
    apply names_unique_NoDup. apply names_unique_NoDup in Hu.
    apply (rename_names_NoDup sel keep new); [assumption | |].
    + intros k1 k2 H1 H2 Hs1 Hs2.
      now rewrite (Hone k1 H1 Hs1), (Hone k2 H2 Hs2).
    + intros r Hr Hs. unfold keep in Hr. rewrite Hs in Hr. simpl in Hr.
      apply negb_true_iff, orb_false_iff in Hr. destruct Hr as [_ Hr].
      intros E. cbn [new Name] in E. rewrite E, String.eqb_refl in Hr.
      discriminate.
  - (* ids *)
    rewrite ids_ascending_map.
    + now apply ids_ascending_filter.
    + intros k Hk. apply Hgid. now apply filter_In in Hk.
  - (* members *)
    apply fk_ok_carry. cbn [rkey rzset]. intros z Hz.
    unfold cascade in Hz. apply filter_In in Hz. destruct Hz as [Hz Hsurv].
    apply negb_true_iff in Hsurv.
    destruct (fk_ok_In st z Hfk Hz) as [k [Hk Hid]].
    exists (g k). split.
    + apply in_map_iff. exists k. split; [reflexivity |].
      apply filter_In. split; [assumption |].
      change (keep k = true).
      destruct (keep k) eqn:Ekeep; [reflexivity |].
      exfalso.
      assert (Hgone : In k (filter (fun k => negb (keep k)) (rkey st))).
      { apply filter_In. split; [assumption | now rewrite Ekeep]. }
      pose proof (proj1 (existsb_false_iff _ _) Hsurv k Hgone) as Hno.
      cbv beta in Hno. rewrite Hid, Z.eqb_refl in Hno. discriminate.
    + now rewrite (Hgid k Hk).
Qed.

Lemma Tx_ExpireAt_store clock key at_ w :
  store (snd (Tx_ExpireAt clock key at_ w))
  = snd (update_where
           (fun k => String.eqb (Name k) key
                     && live (now_at clock (ticks w)) k)
           (fun k => with_etime k (Some (UnixMilli at_))) (store w)).
Proof. reflexivity. Qed.

Lemma Tx_Rename_store clock a b w :
  store (snd (Tx_Rename clock a b w)) = store w
  \/ store (snd (Tx_Rename clock a b w))
     = snd (rename_rows a b (now_at clock (S (S (ticks w))))
              (snd (delete_where
                      (fun k => key_in [b] k
                                && live (now_at clock (S (ticks w))) k)
                      (store w)))).
Proof.
  unfold Tx_Rename, bind. rewrite Get_run. cbn [ret].
  destruct (negb (Exists _)); [now left |].
  destruct (String.eqb a b); [now left |].
  right. unfold Delete, bind, exec, ret. rewrite time_Now_run.
  cbn [store ticks log]. unfold delete_where at 1.
  rewrite time_Now_run. cbn [store ticks log].
  unfold delete_where, now_at.
  destruct (rename_rows _ _ _ _). reflexivity.
Qed.

Lemma Tx_RenameNotExists_store clock a b w :
  store (snd (Tx_RenameNotExists clock a b w)) = store w
  \/ store (snd (Tx_RenameNotExists clock a b w))
     = snd (rename_rows a b (now_at clock (S (S (ticks w)))) (store w)).
Proof.
  unfold Tx_RenameNotExists, bind. rewrite Get_run. cbn [ret].
  destruct (negb (Exists _)); [now left |].
  destruct (String.eqb a b); [now left |].
  unfold Tx_Exists, bind, ret. rewrite Count_run.
  destruct (_ >? 0); [now left |].
  right. rewrite time_Now_run. unfold exec. cbn [store ticks log].
  unfold now_at. destruct (rename_rows _ _ _ _). reflexivity.
Qed.

(** X5. Every write of the key registry keeps the schema invariants: after
    [Delete], [DeleteType], [Expire], [ExpireAt], [Persist], [Rename] and
    [RenameNotExists], whatever their arguments and outcome, key names are
    still unique, ids still positive and in rowid order, and every member
    row still belongs to a key row. *)
Theorem registry_writes_keep_invariants :
  forall (clock : nat -> Z) (typ : Z) (keys : list string)
         (key newKey : string) (ttl at_ : Z) (w : World),
    wf (store w) = true ->
    wf (store (snd (Delete clock keys w))) = true
    /\ wf (store (snd (DeleteType clock typ keys w))) = true
    /\ wf (store (snd (Tx_Expire clock key ttl w))) = true
    /\ wf (store (snd (Tx_ExpireAt clock key at_ w))) = true
    /\ wf (store (snd (Tx_Persist clock key w))) = true
    /\ wf (store (snd (Tx_Rename clock key newKey w))) = true
    /\ wf (store (snd (Tx_RenameNotExists clock key newKey w))) = true.
Proof.
  intros clock typ keys key newKey ttl at_ w Hwf.
  assert (Hupd : forall p e,
            wf (snd (update_where p (fun k => with_etime k e) (store w)))
            = true).
  { intros p e. apply update_where_wf; [| assumption]. now intros k. }
  repeat split.
  - rewrite Delete_run. now apply delete_where_wf.
  - change (store (snd (DeleteType clock typ keys w)))
      with (snd (delete_where
                   (fun k => key_in keys k && live (now_at clock (ticks w)) k
                             && (Type_ k =? typ)) (store w))).
    now apply delete_where_wf.
  - rewrite Tx_Expire_run. apply Hupd.
  - rewrite Tx_ExpireAt_store. apply Hupd.
  - rewrite Tx_Persist_run. apply Hupd.
  - destruct (Tx_Rename_store clock key newKey w) as [-> | ->];
      [assumption |].
    now apply rename_rows_wf, delete_where_wf.
  - destruct (Tx_RenameNotExists_store clock key newKey w) as [-> | ->];
      [assumption |].
    now apply rename_rows_wf.
Qed.

Lemma registry_writes_keep_invariants_witness :
  wf (store world0) = true
  /\ wf (store (snd (Delete clock0 ["y"] world0))) = true
  /\ wf (store (snd (Tx_Rename clock0 "x" "d" world0))) = true
  /\ rkey (store (snd (Tx_Rename clock0 "x" "d" world0)))
     = [mkKey 1 "d" 5 2 None 1002; mkKey 2 "y" 5 1 None 0;
        mkKey 3 "z" 5 1 (Some 5000) 0].
Proof.
  destruct (registry_writes_keep_invariants clock0 5 ["y"] "x" "d" 0 0
              world0 eq_refl) as [Hd [_ [_ [_ [_ [Hr _]]]]]].
  split; [reflexivity |]. split; [exact Hd |]. split; [exact Hr |].
  vm_compute. reflexivity.
Defined.

(** ** Rename: missing source, taken target, round trip *)

(** With unique names, [Get] returns the live row of the name. *)
Lemma Get_unique_row clock key w k :
  names_unique (rkey (store w)) = true ->
  In k (rkey (store w)) -> Name k = key ->
  live (now_at clock (ticks w)) k = true ->
  fst (Get clock key w) = (k, None).
Proof.
  intros Hu Hin Hname Hlive. rewrite Get_run. cbn [fst].
  rewrite (find_the _ _ k); [reflexivity | | assumption |].
  - intros x Hx Hp. apply andb_true_iff in Hp. destruct Hp as [Hp _].
    apply String.eqb_eq in Hp. apply (names_unique_inj _ Hu); congruence.
  - now rewrite Hname, String.eqb_refl, Hlive.
Qed.

Lemma Get_no_live_row clock key w :
  (forall k, In k (rkey (store w)) -> Name k = key ->
             live (now_at clock (ticks w)) k = false) ->
  fst (Get clock key w) = (emptyKey, None).
Proof.
  intros Hdead. rewrite Get_run. cbn [fst].
  rewrite find_absent; [reflexivity |].
  intros x Hx. destruct (String.eqb_spec (Name x) key) as [E | E];
    [| reflexivity].
  now rewrite (Hdead x Hx E).
Qed.

(** X6. [Rename] and [RenameNotExists] of a name that has no live record
    fail with not-found after the one lookup: nothing else is sent to the
    store and the store is unchanged, whatever holds the new name. *)
Theorem Rename_missing_key_not_found :
  forall (clock : nat -> Z) (key newKey : string) (w : World),
    (forall k, In k (rkey (store w)) -> Name k = key ->
               live (now_at clock (ticks w)) k = false) ->
    let w' := mkWorld (store w) (S (ticks w)) (log w ++ [SqlGet]) in
    Tx_Rename clock key newKey w = (Some ErrNotFound, w')
    /\ Tx_RenameNotExists clock key newKey w = ((false, Some ErrNotFound), w').
Proof.
  intros clock key newKey w Hdead w'.
  unfold Tx_Rename, Tx_RenameNotExists, bind. rewrite Get_run.
  rewrite find_absent; [split; reflexivity |].
  intros x Hx. destruct (String.eqb_spec (Name x) key) as [E | E];
    [| reflexivity].
  now rewrite (Hdead x Hx E).
Qed.

Lemma Rename_missing_key_not_found_witness :
  let late := mkWorld store0 5000 [] in
  (forall k, In k (rkey (store late)) -> Name k = "z" ->
             live (now_at clock0 (ticks late)) k = false)
  /\ fst (Tx_Rename clock0 "z" "x" late) = Some ErrNotFound
  /\ store (snd (Tx_Rename clock0 "z" "x" late)) = store0.
Proof.
  intros late.
  assert (Hdead : forall k, In k (rkey (store late)) -> Name k = "z" ->
                   live (now_at clock0 (ticks late)) k = false).
  { intros k Hk Hn. simpl in Hk.
    destruct Hk as [<- | [<- | [<- | [<- | []]]]]; try discriminate Hn.
    reflexivity. }
  destruct (Rename_missing_key_not_found clock0 "z" "x" late Hdead)
    as [Hr _].
  split; [exact Hdead |]. rewrite Hr. split; reflexivity.
Defined.

(** X7. [RenameNotExists] onto a name that holds a live record returns
    false with no error and leaves the store unchanged. *)
Theorem RenameNotExists_taken_target :
  forall (clock : nat -> Z) (key newKey : string) (w : World) (k : Key),
    In k (rkey (store w)) ->
    Name k = newKey ->
    live (now_at clock (S (ticks w))) k = true ->
    (fst (Tx_RenameNotExists clock key newKey w) = (false, None)
     \/ fst (Tx_RenameNotExists clock key newKey w)
        = (false, Some ErrNotFound))
    /\ store (snd (Tx_RenameNotExists clock key newKey w)) = store w.
Proof.
  intros clock key newKey w k Hin Hname Hlive.
  unfold Tx_RenameNotExists, bind. rewrite Get_run. cbn [ret].
  destruct (negb (Exists _)); [split; [now right | reflexivity] |].
  destruct (String.eqb key newKey); [split; [now left | reflexivity] |].
  unfold Tx_Exists, bind, ret. rewrite Count_run. cbn [ticks store].
  rewrite (affected_positive _ _ k Hin).
  - split; [now left | reflexivity].
  - rewrite key_in_single, Hname, String.eqb_refl. exact Hlive.
Qed.

Lemma RenameNotExists_taken_target_witness :
  let k := mkKey 4 "d" 1 1 None 0 in
  In k (rkey (store world0))
  /\ Name k = "d"
  /\ live (now_at clock0 1) k = true
  /\ fst (Tx_RenameNotExists clock0 "x" "d" world0) = (false, None)
  /\ store (snd (Tx_RenameNotExists clock0 "x" "d" world0)) = store0.
Proof.
  intros k.
  assert (Hin : In k (rkey (store world0))) by (simpl; tauto).
  destruct (RenameNotExists_taken_target clock0 "x" "d" world0 k
              Hin eq_refl eq_refl) as [_ Hst].
  split; [exact Hin |]. split; [reflexivity |]. split; [reflexivity |].
  split; [reflexivity | exact Hst].
Defined.

(** X8. [RenameNotExists] onto a name that holds no live record renames:
    for a live source and a different new name it returns true and leaves
    the store that [Rename] leaves. *)
Theorem RenameNotExists_free_target :
  forall (clock : nat -> Z) (key newKey : string) (w : World) (pre : Key),
    names_unique (rkey (store w)) = true ->
    rowid_order (store w) = true ->
    In pre (rkey (store w)) ->
    Name pre = key ->
    key <> newKey ->
    live (now_at clock (ticks w)) pre = true ->
    (forall k, In k (rkey (store w)) -> Name k = newKey ->
               live (now_at clock (S (ticks w))) k = false) ->
    fst (Tx_RenameNotExists clock key newKey w) = (true, None)
    /\ fst (Tx_Rename clock key newKey w) = None
    /\ store (snd (Tx_RenameNotExists clock key newKey w))
       = store (snd (Tx_Rename clock key newKey w)).
Proof.
  intros clock key newKey w pre Hu Hord Hin Hname Hne Hlive Hfree.
  rewrite (Tx_Rename_run clock key newKey w pre Hu Hord Hin Hname Hne Hlive).
  cbn [fst snd store].
  assert (Hnone : forall k, In k (rkey (store w)) ->
                   key_in [newKey] k && live (now_at clock (S (ticks w))) k
                   = false).
  { intros k Hk. rewrite key_in_single.
    destruct (String.eqb_spec (Name k) newKey) as [E | E]; [| reflexivity].
    now rewrite (Hfree k Hk E). }
  rewrite (delete_where_none _ _ Hnone). cbn [snd].
  unfold Tx_RenameNotExists, bind.
  rewrite Get_run. rewrite (find_the _ _ pre); [| | assumption |].
  2:{ intros x Hx Hp. apply andb_true_iff in Hp. destruct Hp as [Hp _].
      apply String.eqb_eq in Hp. apply (names_unique_inj _ Hu); congruence. }
  2:{ now rewrite Hname, String.eqb_refl, Hlive. }
  rewrite Exists_of_id.
  2:{ pose proof (ids_ascending_In 0 _ pre Hord Hin). lia. }
  cbn [negb]. destruct (String.eqb_spec key newKey); [contradiction |].
  unfold Tx_Exists, bind, ret. rewrite Count_run. cbn [ticks store].
  rewrite (filter_none _ _ Hnone). cbn [List.length Z.of_nat Z.gtb Z.compare].
  rewrite time_Now_run. unfold exec. cbn [store ticks log].
  unfold now_at. destruct (rename_rows _ _ _ _).
  repeat split; reflexivity.
Qed.

Lemma RenameNotExists_free_target_witness :
  let pre := mkKey 1 "x" 5 1 None 0 in
  names_unique (rkey (store world0)) = true
  /\ rowid_order (store world0) = true
  /\ In pre (rkey (store world0))
  /\ Name pre = "x"
  /\ "x" <> "free"
  /\ live (now_at clock0 0) pre = true
  /\ (forall k, In k (rkey (store world0)) -> Name k = "free" ->
                live (now_at clock0 1) k = false)
  /\ fst (Tx_RenameNotExists clock0 "x" "free" world0) = (true, None)
  /\ fst (Get clock0 "free" (snd (Tx_RenameNotExists clock0 "x" "free" world0)))
     = (mkKey 1 "free" 5 2 None 1002, None).
Proof.
  intros pre.
  assert (Hin : In pre (rkey (store world0))) by (simpl; tauto).
  assert (Hne : "x" <> "free") by discriminate.
  assert (Hfree : forall k, In k (rkey (store world0)) -> Name k = "free" ->
                   live (now_at clock0 1) k = false).
  { intros k Hk Hn. simpl in Hk.
    destruct Hk as [<- | [<- | [<- | [<- | []]]]]; discriminate Hn. }
  destruct (RenameNotExists_free_target clock0 "x" "free" world0 pre
              eq_refl eq_refl Hin eq_refl Hne eq_refl Hfree) as [Hr _].
  repeat (split; [assumption || reflexivity |]).
  vm_compute. reflexivity.
Defined.

(** ** Rename: the value moves with the key *)

(** In rowid order an id identifies its row. *)
Lemma ids_injective lo rows a b :
  ids_ascending lo rows = true ->
  In a rows -> In b rows -> ID a = ID b -> a = b.
Proof.
  revert lo. induction rows as [| k t IH]; intros lo H Ha Hb Hid; [easy |].
  simpl in H. apply andb_true_iff in H. destruct H as [_ Ht].
  destruct Ha as [Ha | Ha], Hb as [Hb | Hb]; subst.
  - reflexivity.
  - pose proof (ids_ascending_In _ _ b Ht Hb). lia.
  - pose proof (ids_ascending_In _ _ a Ht Ha). lia.
  - now apply (IH (ID k)).
Qed.

Lemma cascade_keeps gone zs id :
  (forall g, In g gone -> ID g <> id) ->
  filter (fun z => key_id z =? id) (cascade gone zs)
  = filter (fun z => key_id z =? id) zs.
Proof.
  intros Hother. unfold cascade.
  induction zs as [| z t IH]; [reflexivity |]. simpl.
  destruct (existsb (fun k => ID k =? key_id z) gone) eqn:Ex; simpl.
  - rewrite IH. destruct (Z.eqb_spec (key_id z) id) as [E | E];
      [| reflexivity].
    apply existsb_exists in Ex. destruct Ex as [g [Hg Hid]].
    apply Z.eqb_eq in Hid. exfalso. apply (Hother g Hg). congruence.
  - now rewrite IH.
Qed.

Lemma cascade_drops gone zs k :
  In k gone -> filter (fun z => key_id z =? ID k) (cascade gone zs) = [].
Proof.
  intros Hk. apply filter_none. intros z Hz. unfold cascade in Hz.
  apply filter_In in Hz. destruct Hz as [_ Hsurv].
  apply negb_true_iff in Hsurv.
  pose proof (proj1 (existsb_false_iff _ _) Hsurv k Hk) as Hno.
  cbv beta in Hno. now rewrite Z.eqb_sym.
Qed.

Lemma cascade_stays_empty gone zs (q : ZRow -> bool) :
  filter q zs = [] -> filter q (cascade gone zs) = [].
Proof.
  intros He. apply filter_none. intros z Hz. unfold cascade in Hz.
  apply filter_In in Hz. destruct Hz as [Hz _].
  destruct (q z) eqn:E; [| reflexivity].
  assert (In z []) as Hno; [| destruct Hno].
  rewrite <- He. apply filter_In. now split.
Qed.

(** [sqlRename] on the live row [pre] of the name, spelled out. *)
Lemma rename_rows_eq a b now st pre :
  names_unique (rkey st) = true ->
  In pre (rkey st) -> Name pre = a -> live now pre = true ->
  let sel := fun k => String.eqb (Name k) a && live now k in
  let keep := fun k =>
    sel k || negb ((ID k =? ID pre) || String.eqb (Name k) b) in
  snd (rename_rows a b now st)
  = mkStore (map (fun k => if sel k then renamed pre b now else k)
                 (filter keep (rkey st)))
            (cascade (filter (fun k => negb (keep k)) (rkey st)) (rzset st)).
Proof.
  intros Hu Hin Hname Hlive sel keep. unfold rename_rows. fold sel.
  assert (Hpre : sel pre = true).
  { unfold sel. now rewrite Hname, String.eqb_refl, Hlive. }
  destruct (filter sel (rkey st)) as [| old rest] eqn:Ef.
  - assert (In pre []) as Hno; [| destruct Hno].
    rewrite <- Ef. apply filter_In. now split.
  - assert (old = pre).
    { assert (In old (filter sel (rkey st))) as Ho
        by (rewrite Ef; now left).
      apply filter_In in Ho. destruct Ho as [Ho Hso].
      unfold sel in Hso. apply andb_true_iff in Hso.
      destruct Hso as [Hso _]. apply String.eqb_eq in Hso.
      apply (names_unique_inj _ Hu); congruence. }
    subst old. reflexivity.
Qed.

(** X9. [Rename] moves the value with the key and drops what held the new
    name: for a live source and a different new name, the members filed
    under the source's id are the same after the call, and any record that
    held the new name, live or not, is gone together with its members. *)
Theorem Rename_carries_value :
  forall (clock : nat -> Z) (a b : string) (w : World) (pre : Key),
    wf (store w) = true ->
    In pre (rkey (store w)) ->
    Name pre = a ->
    a <> b ->
    live (now_at clock (ticks w)) pre = true ->
    live (now_at clock (S (S (ticks w)))) pre = true ->
    let st' := store (snd (Tx_Rename clock a b w)) in
    members (ID pre) st' = members (ID pre) (store w)
    /\ forall k, In k (rkey (store w)) -> Name k = b ->
                 ~ In k (rkey st') /\ members (ID k) st' = [].
Proof.
  intros clock a b w pre Hwf Hin Hname Hab Hlive0 Hlive2 st'.
  apply wf_parts in Hwf. destruct Hwf as [Hu [Hord Hfk]].
  unfold st'. clear st'.
  rewrite (Tx_Rename_run clock a b w pre Hu Hord Hin Hname Hab Hlive0).
  cbn [snd store].
  set (now1 := now_at clock (S (ticks w))).
  set (now2 := now_at clock (S (S (ticks w)))).
  set (p1 := fun k => key_in [b] k && live now1 k).
  set (st1 := snd (delete_where p1 (store w))).
  assert (Hp1pre : p1 pre = false).
  { unfold p1. rewrite key_in_single, Hname.
    destruct (String.eqb_spec a b); [contradiction | reflexivity]. }
  assert (Hu1 : names_unique (rkey st1) = true).
  { unfold st1, delete_where. cbn [snd rkey]. now apply names_unique_filter. }
  assert (Hin1 : In pre (rkey st1)).
  { unfold st1, delete_where. cbn [snd rkey]. apply filter_In.
    split; [assumption | now rewrite Hp1pre]. }
  assert (Hsub1 : forall k, In k (rkey st1) -> In k (rkey (store w))).
  { intros k Hk. unfold st1, delete_where in Hk. cbn [snd rkey] in Hk.
    now apply filter_In in Hk. }
  pose proof (rename_rows_unique a b now2 st1 pre Hu1 Hin1 Hname Hab Hlive2)
    as Hrows.
  rewrite (rename_rows_eq a b now2 st1 pre Hu1 Hin1 Hname Hlive2) in *.
  cbv zeta in *.
  set (sel := fun k => String.eqb (Name k) a && live now2 k) in *.
  set (keep := fun k =>
         sel k || negb ((ID k =? ID pre) || String.eqb (Name k) b)) in *.
  assert (Hselpre : sel pre = true).
  { unfold sel. rewrite Hname, String.eqb_refl. exact Hlive2. }
  unfold members. cbn [rzset rkey] in *.
  assert (Hrz1 : rzset st1 = cascade (filter p1 (rkey (store w)))
                                     (rzset (store w))) by reflexivity.
  split.
  - rewrite cascade_keeps, Hrz1, cascade_keeps; [reflexivity | |].
    + intros g Hg Hid. apply filter_In in Hg. destruct Hg as [Hg Hpg].
      assert (g = pre) by (now apply (ids_injective 0 _ g pre Hord)).
      subst g. congruence.
    + intros g Hg Hid. apply filter_In in Hg. destruct Hg as [Hg Hkg].
      assert (g = pre).
      { apply (ids_injective 0 _ g pre Hord); auto. }
      subst g. change (negb (keep pre) = true) in Hkg.
      unfold keep in Hkg. rewrite Hselpre in Hkg. discriminate.
  - intros k Hk Hkb. split.
    + intros Hk'. destruct (Hrows k Hk') as [E | [_ [_ Hnb]]];
        [| contradiction].
      assert (k = pre).
      { apply (ids_injective 0 _ k pre Hord); auto. now rewrite E. }
      subst k. congruence.
    + destruct (p1 k) eqn:Ep.
      * apply cascade_stays_empty. rewrite Hrz1. apply cascade_drops.
        apply filter_In. now split.
      * apply cascade_drops. apply filter_In. split.
        -- unfold st1, delete_where. cbn [snd rkey]. apply filter_In.
           split; [assumption | now rewrite Ep].
        -- unfold keep, sel. rewrite Hkb, String.eqb_refl.
           destruct (String.eqb_spec b a); [congruence |].
           simpl. now rewrite orb_true_r.
Qed.

Lemma Rename_carries_value_witness :
  let pre := mkKey 1 "x" 5 1 None 0 in
  let st' := store (snd (Tx_Rename clock0 "x" "y" world0)) in
  wf (store world0) = true
  /\ In pre (rkey (store world0))
  /\ Name pre = "x"
  /\ "x" <> "y"
  /\ live (now_at clock0 0) pre = true
  /\ live (now_at clock0 2) pre = true
  /\ members 1 st'
     = [mkZRow 1 "a" 1%float; mkZRow 1 "b" 2%float; mkZRow 1 "c" 3%float]
  /\ members 2 st' = [].
Proof.
  intros pre st'.
  assert (Hin : In pre (rkey (store world0))) by (simpl; tauto).
  assert (Hne : "x" <> "y") by discriminate.
  destruct (Rename_carries_value clock0 "x" "y" world0 pre
              eq_refl Hin eq_refl Hne eq_refl eq_refl) as [Hkeep Hdrop].
  assert (Hy : In (mkKey 2 "y" 5 1 None 0) (rkey (store world0)))
    by (simpl; tauto).
  destruct (Hdrop _ Hy eq_refl) as [_ Hgone].
  repeat (split; [assumption || reflexivity |]).
  exact Hgone.
Defined.

(** What [Tx.Rename] leaves for a live source and a different new name. *)
Lemma Tx_Rename_post clock a b w pre :
  wf (store w) = true ->
  In pre (rkey (store w)) -> Name pre = a -> a <> b ->
  live (now_at clock (ticks w)) pre = true ->
  live (now_at clock (S (S (ticks w)))) pre = true ->
  let w1 := snd (Tx_Rename clock a b w) in
  let post := renamed pre b (now_at clock (S (S (ticks w)))) in
  fst (Tx_Rename clock a b w) = None
  /\ ticks w1 = S (S (S (ticks w)))
  /\ wf (store w1) = true
  /\ In post (rkey (store w1))
  /\ forall x, In x (rkey (store w1)) ->
               x = post \/ (In x (rkey (store w)) /\ Name x <> a /\ Name x <> b).
Proof.
  intros Hwf Hin Hname Hab Hlive0 Hlive2 w1 post. unfold w1.
  pose proof Hwf as Hparts. apply wf_parts in Hparts.
  destruct Hparts as [Hu [Hord _]].
  rewrite (Tx_Rename_run clock a b w pre Hu Hord Hin Hname Hab Hlive0).
  cbn [fst snd store ticks].
  set (st1 := snd (delete_where _ (store w))).
  assert (Hwf1 : wf st1 = true) by now apply delete_where_wf.
  assert (Hu1 : names_unique (rkey st1) = true) by now apply wf_parts in Hwf1.
  assert (Hsub1 : forall k, In k (rkey st1) -> In k (rkey (store w))).
  { intros k Hk. unfold st1, delete_where in Hk. cbn [snd rkey] in Hk.
    now apply filter_In in Hk. }
  assert (Hin1 : In pre (rkey st1)).
  { unfold st1, delete_where. cbn [snd rkey]. apply filter_In.
    split; [assumption |]. rewrite key_in_single, Hname.
    destruct (String.eqb_spec a b); [contradiction | reflexivity]. }
  split; [reflexivity |]. split; [reflexivity |].
  split; [now apply rename_rows_wf |].
  split; [now apply rename_rows_moved |].
  intros x Hx.
  destruct (rename_rows_unique a b _ st1 pre Hu1 Hin1 Hname Hab Hlive2 x Hx)
    as [E | [Hx1 Hn]]; [now left | right].
  split; [now apply Hsub1 | assumption].
Qed.

(** X10. Renaming a live key to another name and back restores the record
    under its old name with the same id, type and expiry and the version
    raised by two; the other name is left without a record. *)
Theorem Rename_round_trip :
  forall (clock : nat -> Z) (a b : string) (w w3 : World) (pre : Key),
    wf (store w) = true ->
    In pre (rkey (store w)) ->
    Name pre = a ->
    a <> b ->
    (forall n, (n <= 5)%nat -> live (now_at clock (ticks w + n)) pre = true) ->
    let w1 := snd (Tx_Rename clock a b w) in
    let w2 := snd (Tx_Rename clock b a w1) in
    store w3 = store w2 ->
    live (now_at clock (ticks w3)) pre = true ->
    fst (Tx_Rename clock a b w) = None
    /\ fst (Tx_Rename clock b a w1) = None
    /\ fst (Get clock a w3)
       = (mkKey (ID pre) a (Type_ pre) (Version pre + 2) (ETime pre)
                (now_at clock (ticks w + 5)), None)
    /\ fst (Get clock b w3) = (emptyKey, None).
Proof.
  intros clock a b w w3 pre Hwf Hin Hname Hab Hlive w1 w2 Hst Hlive3.
  assert (Hl : forall n, (n <= 5)%nat ->
                 live (now_at clock (n + ticks w)) pre = true).
  { intros n Hn. rewrite Nat.add_comm. now apply Hlive. }
  destruct (Tx_Rename_post clock a b w pre Hwf Hin Hname Hab
              (Hl 0%nat ltac:(lia)) (Hl 2%nat ltac:(lia)))
    as [Hok1 [Ht1 [Hwf1 [Hin1 _]]]].
  fold w1 in Ht1, Hwf1, Hin1.
  set (pre1 := renamed pre b (now_at clock (S (S (ticks w))))) in *.
  assert (Hba : b <> a) by congruence.
  assert (Hlive1 : forall now, live now pre1 = live now pre) by reflexivity.
  destruct (Tx_Rename_post clock b a w1 pre1 Hwf1 Hin1 eq_refl Hba)
    as [Hok2 [Ht2 [Hwf2 [Hin2 Hrows2]]]].
  { rewrite Hlive1, Ht1. apply (Hl 3%nat). lia. }
  { rewrite Hlive1, Ht1. apply (Hl 5%nat). lia. }
  fold w2 in Ht2, Hwf2, Hin2, Hrows2.
  rewrite Ht1 in Hin2, Hrows2.
  set (pre2 := renamed pre1 a (now_at clock (S (S (S (S (S (ticks w)))))))) in *.
  apply wf_parts in Hwf2. destruct Hwf2 as [Hu2 _].
  rewrite <- Hst in Hu2, Hin2, Hrows2.
  split; [exact Hok1 |]. split; [exact Hok2 |]. split.
  - rewrite (Get_unique_row clock a w3 pre2 Hu2 Hin2 eq_refl Hlive3).
    unfold pre2, pre1, renamed. cbn [ID Type_ Version ETime].
    replace (ticks w + 5)%nat with (S (S (S (S (S (ticks w)))))) by lia.
    do 2 f_equal. lia.
  - apply Get_no_live_row. intros k Hk Hkb. exfalso.
    destruct (Hrows2 k Hk) as [E | [_ [Hnb _]]]; [| contradiction].
    subst k. cbn [pre2 renamed Name] in Hkb. congruence.
Qed.

Lemma Rename_round_trip_witness :
  let pre := mkKey 3 "z" 5 1 (Some 5000) 0 in
  let w1 := snd (Tx_Rename clock0 "z" "tmp" world0) in
  let w2 := snd (Tx_Rename clock0 "tmp" "z" w1) in
  wf (store world0) = true
  /\ In pre (rkey (store world0))
  /\ (forall n, (n <= 5)%nat ->
                live (now_at clock0 (ticks world0 + n)) pre = true)
  /\ live (now_at clock0 (ticks w2)) pre = true
  /\ fst (Get clock0 "z" w2) = (mkKey 3 "z" 5 3 (Some 5000) 1005, None)
  /\ fst (Get clock0 "tmp" w2) = (emptyKey, None).
Proof.
  intros pre w1 w2.
  assert (Hin : In pre (rkey (store world0))) by (simpl; tauto).
  assert (Hne : "z" <> "tmp") by discriminate.
  assert (Hl : forall n, (n <= 5)%nat ->
                 live (now_at clock0 (ticks world0 + n)) pre = true).
  { intros n Hn. unfold live, now_at, UnixMilli, clock0.
    cbn [pre ETime world0 ticks Nat.add].
    apply Z.ltb_lt. apply Z.div_lt_upper_bound; lia. }
  assert (Hlast : live (now_at clock0 (ticks w2)) pre = true)
    by (vm_compute; reflexivity).
  destruct (Rename_round_trip clock0 "z" "tmp" world0 w2 pre
              eq_refl Hin eq_refl Hne Hl eq_refl Hlast)
    as [_ [_ [Ha Hb]]].
  split; [reflexivity |]. split; [exact Hin |]. split; [exact Hl |].
  split; [exact Hlast |].
  split; [rewrite Ha; vm_compute; reflexivity | exact Hb].
Defined.

(** ** Expire and persist: missing keys, visibility, keys without expiry *)


Lemma update_where_same p f st :
  (forall k, In k (rkey st) -> p k = true -> f k = k) ->
  snd (update_where p f st) = st.
Proof.
  intros Hsame. unfold update_where. cbn [snd].
  rewrite (map_ext_in _ (fun k => k)), map_id; [now rewrite store_eta |].
  intros k Hk. destruct (p k) eqn:E; [now apply Hsame | reflexivity].
Qed.




(** X12. After [Expire] on a live key the record is visible exactly until
    the deadline it set, [time.Now() + ttl] in milliseconds: a later [Get]
    returns the record carrying that expiry while the clock is before the
    deadline, and the empty record once the clock has reached it.  A [ttl]
    that does not move the deadline past the clock (zero or negative, or a
    fraction of a millisecond) hides the key at once. *)
Theorem Expire_sets_deadline :
  forall (clock : nat -> Z) (key : string) (ttl : Z) (w w2 : World)
         (pre : Key),
    names_unique (rkey (store w)) = true ->
    In pre (rkey (store w)) ->
    Name pre = key ->
    live (now_at clock (S (ticks w))) pre = true ->
    store w2 = store (snd (Tx_Expire clock key ttl w)) ->
    let deadline := UnixMilli (clock (ticks w) + ttl) in
    fst (Tx_Expire clock key ttl w) = (true, None)
    /\ (now_at clock (ticks w2) < deadline ->
        fst (Get clock key w2) = (with_etime pre (Some deadline), None))
    /\ (deadline <= now_at clock (ticks w2) ->
        fst (Get clock key w2) = (emptyKey, None)).
Proof.
  intros clock key ttl w w2 pre Hu Hin Hname Hlive Hst deadline.
  rewrite Tx_Expire_run in *. cbv zeta in *. cbn [fst snd store] in Hst |- *.
  fold deadline in Hst |- *.
  destruct (update_etime_row (now_at clock (S (ticks w))) key (Some deadline)
              (store w) pre Hu Hin Hname Hlive) as [Hn [Hu1 Hin1]].
  rewrite Hn. rewrite <- Hst in Hu1, Hin1.
  split; [reflexivity |]. split.
  - intros Hbefore. apply Get_unique_row; try assumption.
    unfold live. cbn [with_etime ETime]. now apply Z.ltb_lt.
  - intros Hafter. apply Get_no_live_row. intros k Hk Hkn.
    assert (k = with_etime pre (Some deadline)).
    { apply (names_unique_inj _ Hu1); try assumption.
      cbn [with_etime Name]. congruence. }
    subst k. unfold live. cbn [with_etime ETime]. now apply Z.ltb_ge.
Qed.

Lemma Expire_sets_deadline_witness :
  let pre := mkKey 1 "x" 5 1 None 0 in
  let w1 := snd (Tx_Expire clock0 "x" 3000000 world0) in
  let later := mkWorld (store w1) 10 [] in
  names_unique (rkey (store world0)) = true
  /\ In pre (rkey (store world0))
  /\ live (now_at clock0 1) pre = true
  /\ now_at clock0 (ticks w1) < UnixMilli (clock0 0 + 3000000)
  /\ UnixMilli (clock0 0 + 3000000) <= now_at clock0 (ticks later)
  /\ fst (Get clock0 "x" w1) = (mkKey 1 "x" 5 1 (Some 1003) 0, None)
  /\ fst (Get clock0 "x" later) = (emptyKey, None).
Proof.
  intros pre w1 later.
  assert (Hin : In pre (rkey (store world0))) by (simpl; tauto).
  assert (Hb : now_at clock0 (ticks w1) < UnixMilli (clock0 0 + 3000000))
    by (vm_compute; reflexivity).
  assert (Ha : UnixMilli (clock0 0 + 3000000) <= now_at clock0 (ticks later))
    by (vm_compute; discriminate).
  destruct (Expire_sets_deadline clock0 "x" 3000000 world0 w1 pre
              eq_refl Hin eq_refl eq_refl eq_refl) as [_ [Hvis _]].
  destruct (Expire_sets_deadline clock0 "x" 3000000 world0 later pre
              eq_refl Hin eq_refl eq_refl eq_refl) as [_ [_ Hgone]].
  split; [reflexivity |]. split; [exact Hin |]. split; [reflexivity |].
  split; [exact Hb |]. split; [exact Ha |].
  split; [rewrite (Hvis Hb); vm_compute; reflexivity | exact (Hgone Ha)].
Defined.

(** X13. [Persist] on a live key that has no expiry reports an update
    (true) and changes nothing. *)
Theorem Persist_without_expiry :
  forall (clock : nat -> Z) (key : string) (w : World) (pre : Key),
    names_unique (rkey (store w)) = true ->
    In pre (rkey (store w)) ->
    Name pre = key ->
    ETime pre = None ->
    fst (Tx_Persist clock key w) = (true, None)
    /\ store (snd (Tx_Persist clock key w)) = store w.
Proof.
  intros clock key w pre Hu Hin Hname Hnone.
  assert (Hlive : live (now_at clock (ticks w)) pre = true).
  { unfold live. now rewrite Hnone. }
  rewrite Tx_Persist_run. cbv zeta. cbn [fst snd store].
  destruct (update_etime_row (now_at clock (ticks w)) key None
              (store w) pre Hu Hin Hname Hlive) as [Hn _].
  rewrite Hn. split; [reflexivity |].
  apply update_where_same. intros k Hk Hp.
  apply andb_true_iff in Hp. destruct Hp as [Hp _].
  apply String.eqb_eq in Hp.
  assert (k = pre) by (apply (names_unique_inj _ Hu); congruence).
  subst k. destruct pre. simpl in *. now subst.
Qed.

Lemma Persist_without_expiry_witness :
  let pre := mkKey 2 "y" 5 1 None 0 in
  names_unique (rkey (store world0)) = true
  /\ In pre (rkey (store world0))
  /\ Name pre = "y"
  /\ ETime pre = None
  /\ fst (Tx_Persist clock0 "y" world0) = (true, None)
  /\ store (snd (Tx_Persist clock0 "y" world0)) = store world0.
Proof.
  intros pre.
  assert (Hin : In pre (rkey (store world0))) by (simpl; tauto).
  destruct (Persist_without_expiry clock0 "y" world0 pre
              eq_refl Hin eq_refl eq_refl) as [Hr Hst].
  repeat (split; [assumption || reflexivity |]).
  exact Hst.
Defined.

(** ** Scan pages chain; the scanner visits every key once *)











(** ** Intersect and union: how the source keys count *)

Lemma select_grouped_In a having rows it :
  In it (select_grouped a having rows) <->
  exists g, In g (group_by_elem rows) /\ having (snd g) = true
            /\ it = mkItem (fst g) (aggregate a (map zscore (snd g))).
Proof.
  unfold select_grouped. split.
  - intros H.
    apply (Permutation_in _ (Permutation_sym (order_by_Permutation _ _))) in H.
    apply in_map_iff in H. destruct H as [g [Hit Hg]].
    apply filter_In in Hg. exists g. now repeat split.
  - intros [g [Hg [Hh Hit]]].
    apply (Permutation_in _ (order_by_Permutation _ _)).
    apply in_map_iff. exists g. split; [now symmetry |].
    apply filter_In. now split.
Qed.

Lemma InterCmd_inter_run clock c w :
  InterCmd_inter clock c w
  = ((inter_query c (now_at clock (ticks w)) (store w), None),
     mkWorld (store w) (S (ticks w)) (log w ++ [SqlInter])).
Proof. reflexivity. Qed.

Lemma UnionCmd_union_run clock c w :
  UnionCmd_union clock c w
  = ((union_query c (now_at clock (ticks w)) (store w), None),
     mkWorld (store w) (S (ticks w)) (log w ++ [SqlUnion])).
Proof. reflexivity. Qed.

Lemma InterCmd_Run_handle clock c w :
  i_db c <> None \/ i_tx c <> None ->
  InterCmd_Run clock c w = InterCmd_inter clock c w.
Proof.
  intros Hh. unfold InterCmd_Run.
  through_handle (i_db c) (i_tx c) Hh; reflexivity.
Qed.

Lemma UnionCmd_Run_handle clock c w :
  u_db c <> None \/ u_tx c <> None ->
  UnionCmd_Run clock c w = UnionCmd_union clock c w.
Proof.
  intros Hh. unfold UnionCmd_Run.
  through_handle (u_db c) (u_tx c) Hh; reflexivity.
Qed.

(** X16. Every item the intersection returns is an item of the union of
    the same keys under the same aggregate, with the same score, when both
    are run at the same instant. *)
Theorem inter_items_are_union_items :
  forall (clock : nat -> Z) (ci : InterCmd) (cu : UnionCmd) (w : World)
         (it : SetItem),
    i_db ci <> None \/ i_tx ci <> None ->
    u_db cu <> None \/ u_tx cu <> None ->
    u_keys cu = i_keys ci ->
    u_aggregate cu = i_aggregate ci ->
    In it (fst (fst (InterCmd_Run clock ci w))) ->
    In it (fst (fst (UnionCmd_Run clock cu w))).
Proof.
  intros clock ci cu w it Hi Hu Hkeys Hagg.
  rewrite (InterCmd_Run_handle _ _ _ Hi), (UnionCmd_Run_handle _ _ _ Hu).
  rewrite InterCmd_inter_run, UnionCmd_union_run. cbn [fst].
  unfold inter_query, union_query, inter_rows, union_rows.
  rewrite Hkeys, Hagg, !select_grouped_In.
  intros [g [Hg [_ Hit]]]. exists g. now repeat split.
Qed.

Lemma inter_items_are_union_items_witness :
  let ci := mkInterCmd None (Some OpenTx) "" ["x"; "y"] Max in
  let cu := mkUnionCmd (Some OpenDB) None "" ["x"; "y"] Max in
  (i_db ci <> None \/ i_tx ci <> None)
  /\ (u_db cu <> None \/ u_tx cu <> None)
  /\ fst (fst (InterCmd_Run clock0 ci world0))
     = [mkItem "b" 10%float; mkItem "c" 20%float]
  /\ In (mkItem "c" 20%float) (fst (fst (InterCmd_Run clock0 ci world0)))
  /\ In (mkItem "c" 20%float) (fst (fst (UnionCmd_Run clock0 cu world0))).
Proof.
  intros ci cu.
  assert (Hi : i_db ci <> None \/ i_tx ci <> None) by (right; discriminate).
  assert (Hu : u_db cu <> None \/ u_tx cu <> None) by (left; discriminate).
  assert (Hin : In (mkItem "c" 20%float)
                   (fst (fst (InterCmd_Run clock0 ci world0))))
    by (vm_compute; tauto).
  split; [exact Hi |]. split; [exact Hu |].
  split; [vm_compute; reflexivity |]. split; [exact Hin |].
  exact (inter_items_are_union_items clock0 ci cu world0 _ Hi Hu
           eq_refl eq_refl Hin).
Defined.

Lemma joined_ext now p q st :
  (forall k, In k (rkey st) -> live now k = true -> p k = q k) ->
  joined now p st = joined now q st.
Proof.
  intros H. unfold joined. apply flat_map_ext. intros z.
  f_equal. apply filter_ext_in. intros k Hk.
  destruct (live now k) eqn:El.
  - now rewrite (H k Hk El).
  - now rewrite !andb_false_r.
Qed.

(** X17. The union depends only on which live keys are named: two key
    lists that name the same live keys (in any order, with repetitions,
    with names that have no live record) give the same result. *)
Theorem union_depends_on_named_live_keys :
  forall (clock : nat -> Z) (c1 c2 : UnionCmd) (w : World),
    u_db c1 <> None \/ u_tx c1 <> None ->
    u_db c2 <> None \/ u_tx c2 <> None ->
    u_aggregate c1 = u_aggregate c2 ->
    (forall k, In k (rkey (store w)) ->
               live (now_at clock (ticks w)) k = true ->
               (In (Name k) (u_keys c1) <-> In (Name k) (u_keys c2))) ->
    fst (UnionCmd_Run clock c1 w) = fst (UnionCmd_Run clock c2 w).
Proof.
  intros clock c1 c2 w H1 H2 Hagg Hsame.
  rewrite (UnionCmd_Run_handle _ _ _ H1), (UnionCmd_Run_handle _ _ _ H2).
  rewrite !UnionCmd_union_run. cbn [fst]. f_equal.
  unfold union_query, union_rows. rewrite Hagg. f_equal.
  apply joined_ext. intros k Hk Hl.
  destruct (key_in (u_keys c1) k) eqn:E1, (key_in (u_keys c2) k) eqn:E2;
    try reflexivity.
  - apply key_in_spec, (Hsame k Hk Hl), key_in_spec in E1. congruence.
  - apply key_in_spec, (Hsame k Hk Hl), key_in_spec in E2. congruence.
Qed.

Lemma union_depends_on_named_live_keys_witness :
  let c1 := mkUnionCmd None (Some OpenTx) "" ["x"; "y"] Sum in
  let c2 := mkUnionCmd None (Some OpenTx) "" ["gone"; "y"; "x"; "y"] Sum in
  (u_db c1 <> None \/ u_tx c1 <> None)
  /\ (u_db c2 <> None \/ u_tx c2 <> None)
  /\ (forall k, In k (rkey (store world0)) ->
                live (now_at clock0 (ticks world0)) k = true ->
                (In (Name k) (u_keys c1) <-> In (Name k) (u_keys c2)))
  /\ fst (UnionCmd_Run clock0 c2 world0)
     = ([mkItem "a" 1%float; mkItem "b" 12%float; mkItem "c" 23%float;
         mkItem "d" 30%float], None).
Proof.
  intros c1 c2.
  assert (H1 : u_db c1 <> None \/ u_tx c1 <> None) by (right; discriminate).
  assert (H2 : u_db c2 <> None \/ u_tx c2 <> None) by (right; discriminate).
  assert (Hs : forall k, In k (rkey (store world0)) ->
                live (now_at clock0 (ticks world0)) k = true ->
                (In (Name k) (u_keys c1) <-> In (Name k) (u_keys c2))).
  { intros k Hk _. simpl in Hk.
    destruct Hk as [<- | [<- | [<- | [<- | []]]]]; simpl;
      (split; intros H; repeat (destruct H as [H | H]; try discriminate H);
       tauto). }
  split; [exact H1 |]. split; [exact H2 |]. split; [exact Hs |].
  rewrite <- (union_depends_on_named_live_keys clock0 c1 c2 world0
                H1 H2 eq_refl Hs).
  vm_compute. reflexivity.
Defined.

Lemma joined_In_live now p st z :
  In z (joined now p st) ->
  In z (rzset st)
  /\ exists k, In k (rkey st) /\ key_id z = ID k
               /\ live now k = true /\ p k = true.
Proof.
  unfold joined. intros H. apply in_flat_map in H.
  destruct H as [z0 [Hz0 Hz]]. apply in_map_iff in Hz.
  destruct Hz as [k [-> Hk]]. apply filter_In in Hk. destruct Hk as [Hk Hp].
  apply andb_true_iff in Hp. destruct Hp as [Hp Hpk].
  apply andb_true_iff in Hp. destruct Hp as [Hid Hl].
  apply Z.eqb_eq in Hid. split; [assumption |]. now exists k.
Qed.

Lemma NoDup_map_on {A B} (f : A -> B) (l : list A) :
  (forall x y, In x l -> In y l -> f x = f y -> x = y) ->
  NoDup l -> NoDup (map f l).
Proof.
  intros Hinj Hnd. induction Hnd as [| a t Ha Ht IH]; simpl; [constructor |].
  constructor.
  - intros Hin. apply in_map_iff in Hin. destruct Hin as [y [Hy Hyt]].
    apply Ha. rewrite (Hinj a y); simpl; auto.
  - apply IH. intros x y Hx Hy. apply Hinj; now right.
Qed.

Lemma name_of_row rows k :
  ids_ascending 0 rows = true -> In k rows -> name_of rows (ID k) = Name k.
Proof.
  intros Hord Hk. unfold name_of.
  destruct (find (fun k0 => ID k0 =? ID k) rows) as [k' |] eqn:Ef.
  - apply find_some in Ef. destruct Ef as [Hk' Hid]. apply Z.eqb_eq in Hid.
    now rewrite (ids_injective 0 rows k' k Hord Hk' Hk Hid).
  - pose proof (find_none _ _ Ef k Hk) as Hno. cbv beta in Hno.
    now rewrite Z.eqb_refl in Hno.
Qed.

(** With a source name that contributes no member row, no element is in
    as many sets as there are names: the intersection query is empty. *)
Lemma inter_rows_missing_source a now keys st m :
  names_unique (rkey st) = true ->
  rowid_order st = true ->
  In m keys ->
  (forall k, In k (rkey st) -> Name k = m -> live now k = true ->
             members (ID k) st = []) ->
  inter_rows a now keys (Z.of_nat (List.length keys)) st = [].
Proof.
  intros Hu Hord Hm Hempty. unfold inter_rows, select_grouped.
  rewrite filter_none; [reflexivity |].
  intros [e rows] Hg. cbn [snd].
  unfold group_by_elem in Hg. apply in_map_iff in Hg.
  destruct Hg as [e' [Heq _]]. inversion Heq; subst e' rows. clear Heq.
  set (rows := filter (fun z => String.eqb (zelem z) e)
                      (joined now (key_in keys) st)).
  set (D := nodup Z.eq_dec (map key_id rows)).
  assert (Hrow : forall id, In id D ->
            exists k z, In k (rkey st) /\ ID k = id /\ In (Name k) keys
                        /\ live now k = true /\ In z (rzset st)
                        /\ key_id z = id).
  { intros id Hid. unfold D in Hid. apply nodup_In, in_map_iff in Hid.
    destruct Hid as [z [Hzid Hz]]. unfold rows in Hz.
    apply filter_In in Hz. destruct Hz as [Hz _].
    apply joined_In_live in Hz.
    destruct Hz as [Hzin [k [Hk [Hid [Hl Hp]]]]].
    exists k, z. apply key_in_spec in Hp. repeat split; congruence. }
  assert (Hincl : incl (m :: map (name_of (rkey st)) D) keys).
  { intros x [<- | Hx]; [assumption |].
    apply in_map_iff in Hx. destruct Hx as [id [<- Hid]].
    destruct (Hrow id Hid) as [k [_ [Hk [<- [Hn _]]]]].
    now rewrite (name_of_row _ k Hord Hk). }
  assert (Hnd : NoDup (m :: map (name_of (rkey st)) D)).
  { constructor.
    - intros Hx. apply in_map_iff in Hx. destruct Hx as [id [Hname Hid]].
      destruct (Hrow id Hid) as [k [z [Hk [Hkid [_ [Hl [Hz Hzid]]]]]]].
      subst id. rewrite (name_of_row _ k Hord Hk) in Hname.
      pose proof (Hempty k Hk Hname Hl) as Hnone.
      assert (In z (members (ID k) st)) as Hin.
      { unfold members. apply filter_In. split; [assumption |].
        now apply Z.eqb_eq. }
      rewrite Hnone in Hin. destruct Hin.
    - apply NoDup_map_on; [| apply NoDup_nodup].
      intros i j Hi Hj Hsame.
      destruct (Hrow i Hi) as [ki [_ [Hki [<- _]]]].
      destruct (Hrow j Hj) as [kj [_ [Hkj [<- _]]]].
      rewrite !name_of_row in Hsame by assumption.
      now rewrite (names_unique_inj _ Hu ki kj Hki Hkj Hsame). }
  pose proof (NoDup_incl_length Hnd Hincl) as Hlen.
  cbn [List.length] in Hlen. rewrite length_map in Hlen.
  unfold count_distinct_key_id. fold D. apply Z.eqb_neq. lia.
Qed.

(** X18. When one of the source names contributes nothing (no live record
    of that name, or a live record that holds no members, as any key that is
    not a sorted set), the intersection is empty, with no error. *)
Theorem inter_missing_source_is_empty :
  forall (clock : nat -> Z) (c : InterCmd) (w : World) (m : string),
    names_unique (rkey (store w)) = true ->
    rowid_order (store w) = true ->
    i_db c <> None \/ i_tx c <> None ->
    In m (i_keys c) ->
    (forall k, In k (rkey (store w)) -> Name k = m ->
               live (now_at clock (ticks w)) k = true ->
               members (ID k) (store w) = []) ->
    fst (InterCmd_Run clock c w) = ([], None).
Proof.
  intros clock c w m Hu Hord Hh Hm Hempty.
  rewrite (InterCmd_Run_handle _ _ _ Hh), InterCmd_inter_run. cbn [fst].
  unfold inter_query.
  now rewrite (inter_rows_missing_source _ _ _ _ m Hu Hord Hm Hempty).
Qed.

Lemma inter_missing_source_is_empty_witness :
  let c := mkInterCmd None (Some OpenTx) "" ["x"; "d"; "y"] Sum in
  names_unique (rkey (store world0)) = true
  /\ rowid_order (store world0) = true
  /\ (i_db c <> None \/ i_tx c <> None)
  /\ In "d" (i_keys c)
  /\ (forall k, In k (rkey (store world0)) -> Name k = "d" ->
                live (now_at clock0 (ticks world0)) k = true ->
                members (ID k) (store world0) = [])
  /\ fst (InterCmd_Run clock0 c world0) = ([], None).
Proof.
  intros c.
  assert (Hh : i_db c <> None \/ i_tx c <> None) by (right; discriminate).
  assert (Hm : In "d" (i_keys c)) by (simpl; tauto).
  assert (He : forall k, In k (rkey (store world0)) -> Name k = "d" ->
                live (now_at clock0 (ticks world0)) k = true ->
                members (ID k) (store world0) = []).
  { intros k Hk Hn _. simpl in Hk.
    destruct Hk as [<- | [<- | [<- | [<- | []]]]]; try discriminate Hn.
    reflexivity. }
  split; [reflexivity |]. split; [reflexivity |]. split; [exact Hh |].
  split; [exact Hm |]. split; [exact He |].
  exact (inter_missing_source_is_empty clock0 c world0 "d"
           eq_refl eq_refl Hh Hm He).
Defined.

(** ** A single source key *)

Lemma filter_the_row (p : Key -> bool) rows k :
  names_unique rows = true -> In k rows -> p k = true ->
  (forall x, In x rows -> p x = true -> Name x = Name k) ->
  filter p rows = [k].
Proof.
  intros Hu Hin Hp Hname.
  induction rows as [| h t IH]; [destruct Hin |].
  simpl in Hu. apply andb_true_iff in Hu. destruct Hu as [Hh Ht].
  apply negb_true_iff in Hh.
  pose proof (proj1 (existsb_false_iff _ _) Hh) as Hfresh. cbv beta in Hfresh.
  simpl. destruct Hin as [-> | Hin].
  - rewrite Hp. f_equal. apply filter_none. intros x Hx.
    destruct (p x) eqn:E; [| reflexivity].
    pose proof (Hname x (or_intror Hx) E) as Hn.
    specialize (Hfresh x Hx). rewrite Hn, String.eqb_refl in Hfresh.
    discriminate.
  - destruct (p h) eqn:E.
    + pose proof (Hname h (or_introl eq_refl) E) as Hn.
      specialize (Hfresh k Hin). rewrite Hn, String.eqb_refl in Hfresh.
      discriminate.
    + apply IH; [assumption | assumption |].
      intros x Hx. apply Hname. now right.
Qed.

(** The rows joined for one name are the members of its live record. *)
Lemma joined_single now (p : Key -> bool) st x k :
  names_unique (rkey st) = true ->
  rowid_order st = true ->
  In k (rkey st) -> Name k = x -> live now k = true ->
  (forall r, p r = String.eqb (Name r) x) ->
  joined now p st = members (ID k) st.
Proof.
  intros Hu Hord Hk Hname Hlive Hp. unfold joined, members.
  induction (rzset st) as [| z t IH]; [reflexivity |].
  cbn [flat_map filter]. rewrite IH.
  destruct (Z.eqb_spec (key_id z) (ID k)) as [E | E].
  - rewrite (filter_the_row _ _ k Hu Hk); [reflexivity | |].
    + now rewrite E, Z.eqb_refl, Hlive, Hp, Hname, String.eqb_refl.
    + intros r Hr Hpr. apply andb_true_iff in Hpr. destruct Hpr as [_ Hpr].
      rewrite Hp in Hpr. apply String.eqb_eq in Hpr. congruence.
  - rewrite filter_none; [reflexivity |].
    intros r Hr. destruct (Z.eqb_spec (key_id z) (ID r)) as [Er | Er];
      [| reflexivity].
    destruct (live now r) eqn:El; [| reflexivity].
    rewrite Hp. destruct (String.eqb_spec (Name r) x) as [En | En];
      [| reflexivity].
    exfalso. apply E. rewrite Er. f_equal.
    apply (names_unique_inj _ Hu); congruence.
Qed.

Lemma joined_none now (p : Key -> bool) st :
  (forall k, In k (rkey st) -> live now k = true -> p k = true ->
             members (ID k) st = []) ->
  joined now p st = [].
Proof.
  intros Hnone. unfold joined.
  assert (Hz : forall z, In z (rzset st) ->
            filter (fun k => (key_id z =? ID k) && live now k && p k)
                   (rkey st) = []).
  { intros z Hz. apply filter_none. intros k Hk.
    destruct (Z.eqb_spec (key_id z) (ID k)) as [E | E]; [| reflexivity].
    destruct (live now k) eqn:El; [| reflexivity].
    destruct (p k) eqn:Ep; [| reflexivity].
    assert (In z (members (ID k) st)) as Hin.
    { unfold members. apply filter_In. split; [assumption |].
      now apply Z.eqb_eq. }
    rewrite (Hnone k Hk El Ep) in Hin. destruct Hin. }
  induction (rzset st) as [| z t IH]; [reflexivity |].
  cbn [flat_map]. rewrite (Hz z (or_introl eq_refl)). simpl.
  apply IH. intros z' Hz'. apply Hz. now right.
Qed.

Lemma members_elems_NoDup id st :
  members_unique (rzset st) = true -> NoDup (map zelem (members id st)).
Proof.
  unfold members. induction (rzset st) as [| z t IH]; intros H;
    [constructor |].
  simpl in H. apply andb_true_iff in H. destruct H as [Hz Ht].
  apply negb_true_iff in Hz.
  pose proof (proj1 (existsb_false_iff _ _) Hz) as Hfresh. cbv beta in Hfresh.
  simpl. destruct (Z.eqb_spec (key_id z) id) as [E | E]; [| now apply IH].
  simpl. constructor; [| now apply IH].
  intros Hin. apply in_map_iff in Hin. destruct Hin as [z' [He Hz']].
  apply filter_In in Hz'. destruct Hz' as [Hz' Hid].
  apply Z.eqb_eq in Hid. specialize (Hfresh z' Hz').
  rewrite Hid, E, Z.eqb_refl, He, String.eqb_refl in Hfresh. discriminate.
Qed.

Lemma filter_the_elem rows z :
  NoDup (map zelem rows) -> In z rows ->
  filter (fun z' => String.eqb (zelem z') (zelem z)) rows = [z].
Proof.
  induction rows as [| h t IH]; intros Hnd Hin; [destruct Hin |].
  inversion Hnd as [| ? ? Hh Ht]; subst. simpl.
  destruct Hin as [-> | Hin].
  - rewrite String.eqb_refl. f_equal. apply filter_none. intros x Hx.
    destruct (String.eqb_spec (zelem x) (zelem z)) as [E | E];
      [| reflexivity].
    exfalso. apply Hh. rewrite <- E. now apply in_map.
  - destruct (String.eqb_spec (zelem h) (zelem z)) as [E | E].
    + exfalso. apply Hh. rewrite E. now apply in_map.
    + now apply IH.
Qed.

(** Grouping rows that all differ in their element: every group is one
    row, and each aggregate of a single score is that score. *)
Lemma select_grouped_singletons a having rows :
  NoDup (map zelem rows) ->
  (forall z, having [z] = true) ->
  select_grouped a having rows
  = order_by (item_before Asc) (map toItem rows).
Proof.
  intros Hnd Hhave. unfold select_grouped. f_equal.
  unfold group_by_elem. rewrite (nodup_fixed_point string_dec Hnd).
  rewrite map_map.
  rewrite (map_ext_in _ (fun z => (zelem z, [z]))).
  2:{ intros z Hz. now rewrite (filter_the_elem rows z Hnd Hz). }
  rewrite filter_all.
  2:{ intros g Hg. apply in_map_iff in Hg. destruct Hg as [z [<- _]].
      apply Hhave. }
  rewrite map_map. apply map_ext. intros z. now destruct a.
Qed.

(** X19. The intersection and the union over a single live sorted-set key
    both return the set's own contents, element by element with the score
    it has, ordered by [(score, elem)], under every aggregate. *)
Theorem single_key_is_the_set :
  forall (clock : nat -> Z) (ci : InterCmd) (cu : UnionCmd) (w : World)
         (x : string) (k : Key),
    names_unique (rkey (store w)) = true ->
    rowid_order (store w) = true ->
    members_unique (rzset (store w)) = true ->
    i_db ci <> None \/ i_tx ci <> None ->
    u_db cu <> None \/ u_tx cu <> None ->
    i_keys ci = [x] ->
    u_keys cu = [x] ->
    In k (rkey (store w)) ->
    Name k = x ->
    live (now_at clock (ticks w)) k = true ->
    let own := order_by (item_before Asc)
                        (map toItem (members (ID k) (store w))) in
    fst (InterCmd_Run clock ci w) = (own, None)
    /\ fst (UnionCmd_Run clock cu w) = (own, None).
Proof.
  intros clock ci cu w x k Hu Hord Hmu Hi Hc Hik Huk Hk Hname Hlive own.
  rewrite (InterCmd_Run_handle _ _ _ Hi), (UnionCmd_Run_handle _ _ _ Hc).
  rewrite InterCmd_inter_run, UnionCmd_union_run. cbn [fst].
  unfold inter_query, union_query, inter_rows, union_rows.
  rewrite Hik, Huk.
  rewrite (joined_single _ _ _ x k Hu Hord Hk Hname Hlive)
    by (intros r; apply key_in_single).
  pose proof (members_elems_NoDup (ID k) (store w) Hmu) as Hnd.
  rewrite !select_grouped_singletons; try assumption; try reflexivity.
  now split.
Qed.

Lemma single_key_is_the_set_witness :
  let ci := mkInterCmd None (Some OpenTx) "" ["y"] Sum in
  let cu := mkUnionCmd None (Some OpenTx) "" ["y"] Min in
  let k := mkKey 2 "y" 5 1 None 0 in
  names_unique (rkey (store world0)) = true
  /\ rowid_order (store world0) = true
  /\ members_unique (rzset (store world0)) = true
  /\ In k (rkey (store world0))
  /\ live (now_at clock0 (ticks world0)) k = true
  /\ fst (InterCmd_Run clock0 ci world0)
     = ([mkItem "b" 10%float; mkItem "c" 20%float; mkItem "d" 30%float], None)
  /\ fst (UnionCmd_Run clock0 cu world0)
     = ([mkItem "b" 10%float; mkItem "c" 20%float; mkItem "d" 30%float], None).
Proof.
  intros ci cu k.
  assert (Hi : i_db ci <> None \/ i_tx ci <> None) by (right; discriminate).
  assert (Hc : u_db cu <> None \/ u_tx cu <> None) by (right; discriminate).
  assert (Hk : In k (rkey (store world0))) by (simpl; tauto).
  destruct (single_key_is_the_set clock0 ci cu world0 "y" k
              eq_refl eq_refl eq_refl Hi Hc eq_refl eq_refl Hk eq_refl
              eq_refl) as [HI HU].
  split; [reflexivity |]. split; [reflexivity |]. split; [reflexivity |].
  split; [exact Hk |]. split; [reflexivity |].
  split; [rewrite HI | rewrite HU]; vm_compute; reflexivity.
Defined.

(** ** Range by rank: the slice returned *)

Lemma nodup_one_value_eq (l : list Z) (v : Z) :
  (forall y, In y l -> y = v) -> l <> [] -> nodup Z.eq_dec l = [v].
Proof.
  induction l as [| a t IH]; intros H Hne; [contradiction |].
  assert (a = v) by (apply H; now left). subst a. simpl.
  destruct (in_dec Z.eq_dec v t) as [Hin | Hout].
  - apply IH; [intros y Hy; apply H; now right |].
    intros ->. destruct Hin.
  - destruct t as [| b t']; [reflexivity |].
    exfalso. apply Hout. left. apply H. right. now left.
Qed.

(** The ranked rows of one key: its ordered members, numbered from 0. *)
Lemma ranked_members d id st :
  ranked d (members id st)
  = numbered (order_by (item_before d) (map toItem (members id st))) 0.
Proof.
  unfold ranked, numbered.
  destruct (members id st) as [| z t] eqn:Em; [reflexivity |].
  rewrite <- Em.
  assert (Hid : forall z', In z' (members id st) -> key_id z' = id).
  { intros z' Hz'. unfold members in Hz'. apply filter_In in Hz'.
    now apply Z.eqb_eq. }
  rewrite (nodup_one_value_eq _ id).
  - cbn [flat_map]. rewrite app_nil_r.
    rewrite filter_all; [reflexivity |].
    intros z' Hz'. apply Z.eqb_eq. now apply Hid.
  - intros y Hy. apply in_map_iff in Hy. destruct Hy as [z' [<- Hz']].
    now apply Hid.
  - rewrite Em. discriminate.
Qed.

Lemma numbered_cons x t o :
  numbered (x :: t) o = (x, Z.of_nat o) :: numbered t (S o).
Proof. reflexivity. Qed.

Lemma ranks_ascending_weaken lo lo' l :
  lo' <= lo -> ranks_ascending lo l = true -> ranks_ascending lo' l = true.
Proof.
  destruct l as [| r t]; [easy |]. simpl. intros Hle H.
  apply andb_true_iff in H. destruct H as [H1 H2].
  apply Z.ltb_lt in H1. rewrite H2, andb_true_r. apply Z.ltb_lt. lia.
Qed.

Lemma ranks_ascending_In lo l r :
  ranks_ascending lo l = true -> In r l -> lo < snd r.
Proof.
  revert lo. induction l as [| a t IH]; intros lo H Hin; [easy |].
  simpl in H. apply andb_true_iff in H. destruct H as [H1 H2].
  apply Z.ltb_lt in H1. destruct Hin as [-> | Hin]; [assumption |].
  specialize (IH _ H2 Hin). lia.
Qed.

Lemma ranks_ascending_filter p lo l :
  ranks_ascending lo l = true -> ranks_ascending lo (filter p l) = true.
Proof.
  revert lo. induction l as [| a t IH]; intros lo H; [easy |].
  simpl in H. apply andb_true_iff in H. destruct H as [H1 H2]. simpl.
  destruct (p a); simpl.
  - now rewrite H1, IH.
  - apply IH. apply ranks_ascending_weaken with (lo := snd a); [| assumption].
    apply Z.ltb_lt in H1. lia.
Qed.

Lemma numbered_ascending l o lo :
  lo < Z.of_nat o -> ranks_ascending lo (numbered l o) = true.
Proof.
  revert o lo. induction l as [| x t IH]; intros o lo Hlo; [reflexivity |].
  rewrite numbered_cons. simpl. apply andb_true_iff. split.
  - now apply Z.ltb_lt.
  - apply IH. lia.
Qed.

(** Ordering by rank a list whose ranks already ascend: ascending order
    leaves it as it is, descending order reverses it. *)
Lemma order_by_rank_asc lo l :
  ranks_ascending lo l = true -> order_by (rank_before Asc) l = l.
Proof.
  revert lo. induction l as [| r t IH]; intros lo H; [reflexivity |].
  simpl in H. apply andb_true_iff in H. destruct H as [_ Ht].
  cbn [order_by fold_right]. fold (order_by (rank_before Asc) t).
  rewrite (IH _ Ht). destruct t as [| r2 t']; [reflexivity |].
  simpl. simpl in Ht. apply andb_true_iff in Ht. destruct Ht as [H12 _].
  now rewrite H12.
Qed.

Lemma insert_by_last {A} (before : A -> A -> bool) x l :
  (forall y, In y l -> before x y = false) -> insert_by before x l = l ++ [x].
Proof.
  induction l as [| y t IH]; intros H; [reflexivity |].
  simpl. rewrite (H y (or_introl eq_refl)). f_equal.
  apply IH. intros z Hz. apply H. now right.
Qed.

Lemma order_by_rank_desc lo l :
  ranks_ascending lo l = true -> order_by (rank_before Desc) l = rev l.
Proof.
  revert lo. induction l as [| r t IH]; intros lo H; [reflexivity |].
  simpl in H. apply andb_true_iff in H. destruct H as [_ Ht].
  cbn [order_by fold_right]. fold (order_by (rank_before Desc) t).
  rewrite (IH _ Ht). simpl. apply insert_by_last.
  intros y Hy. apply in_rev in Hy.
  pose proof (ranks_ascending_In _ _ y Ht Hy) as Hlt.
  unfold rank_before.
  destruct (Z.ltb_spec (snd y) (snd r)); [lia |].
  destruct (Z.eqb_spec (snd r) (snd y)); [lia | reflexivity].
Qed.

(** The rows whose number lies between [start] and [stop]. *)
Lemma numbered_between l o start stop :
  0 <= start -> 0 <= stop ->
  map fst (filter (fun r => (start <=? snd r) && (snd r <=? stop))
                  (numbered l o))
  = firstn (Z.to_nat stop + 1 - Nat.max (Z.to_nat start) o)
           (skipn (Z.to_nat start - o) l).
Proof.
  intros Hs He. revert o. induction l as [| x t IH]; intros o.
  - cbn. now rewrite skipn_nil, firstn_nil.
  - rewrite numbered_cons. cbn [filter snd].
    destruct (Z.leb_spec start (Z.of_nat o)) as [Hso | Hso];
      [destruct (Z.leb_spec (Z.of_nat o) stop) as [Hoe | Hoe] |]; cbn [andb].
    + cbn [map fst]. rewrite IH.
      replace (Z.to_nat start - o)%nat with 0%nat by lia.
      replace (Z.to_nat start - S o)%nat with 0%nat by lia.
      replace (Z.to_nat stop + 1 - Nat.max (Z.to_nat start) o)%nat
        with (S (Z.to_nat stop - o)) by lia.
      replace (Z.to_nat stop + 1 - Nat.max (Z.to_nat start) (S o))%nat
        with (Z.to_nat stop - o)%nat by lia.
      reflexivity.
    + rewrite IH.
      replace (Z.to_nat stop + 1 - Nat.max (Z.to_nat start) o)%nat
        with 0%nat by lia.
      replace (Z.to_nat stop + 1 - Nat.max (Z.to_nat start) (S o))%nat
        with 0%nat by lia.
      reflexivity.
    + rewrite IH.
      replace (Z.to_nat start - o)%nat with (S (Z.to_nat start - S o)) by lia.
      replace (Nat.max (Z.to_nat start) (S o)) with (Nat.max (Z.to_nat start) o)
        by lia.
      reflexivity.
Qed.

Lemma RangeCmd_rangeRank_run clock c start stop w :
  0 <= start -> 0 <= stop ->
  r_byRank c = Some (start, stop) ->
  fst (RangeCmd_Run clock c w)
  = (range_rank_rows (r_sortDir c) (now_at clock (ticks w)) (r_key c)
                     start stop (store w), None).
Proof.
  intros Hs He Hrank. unfold RangeCmd_Run. rewrite Hrank.
  unfold RangeCmd_rangeRank.
  destruct (Z.ltb_spec start 0); [lia |].
  destruct (Z.ltb_spec stop 0); [lia |]. reflexivity.
Qed.

(** X20. A range-by-rank query with bounds [0 <= start] and [0 <= stop] on
    a live sorted-set key takes the key's members ordered by
    [(score, elem)] in the direction asked and returns those at positions
    [start] to [stop], inclusive.  In the ascending direction they come in
    that order; in the descending direction the positions are counted from
    the highest score and the slice is returned last position first. *)
Theorem rangeRank_returns_slice :
  forall (clock : nat -> Z) (c : RangeCmd) (start stop : Z) (w : World)
         (k : Key),
    names_unique (rkey (store w)) = true ->
    rowid_order (store w) = true ->
    r_byRank c = Some (start, stop) ->
    0 <= start ->
    0 <= stop ->
    In k (rkey (store w)) ->
    Name k = r_key c ->
    live (now_at clock (ticks w)) k = true ->
    let ordered := order_by (item_before (r_sortDir c))
                            (map toItem (members (ID k) (store w))) in
    let slice := firstn (Z.to_nat stop + 1 - Z.to_nat start)
                        (skipn (Z.to_nat start) ordered) in
    fst (RangeCmd_Run clock c w)
    = (match r_sortDir c with Asc => slice | Desc => rev slice end, None).
Proof.
  intros clock c start stop w k Hu Hord Hrank Hs He Hk Hname Hlive
         ordered slice.
  rewrite (RangeCmd_rangeRank_run _ _ start stop _ Hs He Hrank). f_equal.
  unfold range_rank_rows.
  rewrite (joined_single _ _ _ (r_key c) k Hu Hord Hk Hname Hlive)
    by reflexivity.
  rewrite ranked_members. fold ordered.
  set (picked := filter (fun r => (start <=? snd r) && (snd r <=? stop))
                        (numbered ordered 0)).
  assert (Hasc : ranks_ascending (-1) picked = true).
  { apply ranks_ascending_filter, numbered_ascending. lia. }
  assert (Hslice : map fst picked = slice).
  { unfold picked, slice. rewrite numbered_between by assumption.
    now rewrite Nat.max_0_r, Nat.sub_0_r. }
  destruct (r_sortDir c).
  - now rewrite (order_by_rank_asc _ _ Hasc).
  - now rewrite (order_by_rank_desc _ _ Hasc), map_rev, Hslice.
Qed.

Lemma rangeRank_returns_slice_witness :
  let k := mkKey 2 "y" 5 1 None 0 in
  let up := mkRangeCmd "y" (Some (1, 5)) None Asc 0 0 in
  let down := mkRangeCmd "y" (Some (0, 1)) None Desc 0 0 in
  names_unique (rkey (store world0)) = true
  /\ rowid_order (store world0) = true
  /\ In k (rkey (store world0))
  /\ live (now_at clock0 (ticks world0)) k = true
  /\ fst (RangeCmd_Run clock0 up world0)
     = ([mkItem "c" 20%float; mkItem "d" 30%float], None)
  /\ fst (RangeCmd_Run clock0 down world0)
     = ([mkItem "c" 20%float; mkItem "d" 30%float], None).
Proof.
  intros k up down.
  assert (Hk : In k (rkey (store world0))) by (simpl; tauto).
  pose proof (rangeRank_returns_slice clock0 up 1 5 world0 k
                eq_refl eq_refl eq_refl ltac:(lia) ltac:(lia) Hk eq_refl
                eq_refl) as Hup.
  pose proof (rangeRank_returns_slice clock0 down 0 1 world0 k
                eq_refl eq_refl eq_refl ltac:(lia) ltac:(lia) Hk eq_refl
                eq_refl) as Hdown.
  split; [reflexivity |]. split; [reflexivity |]. split; [exact Hk |].
  split; [reflexivity |].
  split; [rewrite Hup | rewrite Hdown]; vm_compute; reflexivity.
Defined.

(** ** Range: keys that hold no sorted set, and the score bounds *)

Lemma apply_limit_In {A} (c : LimitClause) (l : list A) x :
  In x (apply_limit c l) -> In x l.
Proof.
  destruct c as [| n | o n]; simpl; [easy | apply sql_limit_In |].
  unfold sql_limit_offset. intros H. apply sql_limit_In in H.
  rewrite <- (firstn_skipn (Z.to_nat o) l). apply in_or_app. now right.
Qed.

Lemma apply_limit_nil {A} (c : LimitClause) : apply_limit c (@nil A) = [].
Proof.
  destruct c as [| n | o n]; simpl; [reflexivity | |];
    unfold sql_limit_offset, sql_limit; rewrite ?skipn_nil;
    destruct (n <? 0); now rewrite ?firstn_nil.
Qed.

(** X21. A range query on a name that holds no sorted set (no live record
    of that name, or a live record without members, as any key of another
    type) returns the empty result with no error, whatever the bounds,
    direction, offset and count. *)
Theorem range_without_set_is_empty :
  forall (clock : nat -> Z) (c : RangeCmd) (w : World),
    (forall k, In k (rkey (store w)) -> Name k = r_key c ->
               live (now_at clock (ticks w)) k = true ->
               members (ID k) (store w) = []) ->
    fst (RangeCmd_Run clock c w) = ([], None).
Proof.
  intros clock c w Hnone.
  assert (Hj : joined (now_at clock (ticks w))
                      (fun k => String.eqb (Name k) (r_key c)) (store w) = []).
  { apply joined_none. intros k Hk Hl Hn. apply String.eqb_eq in Hn.
    now apply Hnone. }
  unfold RangeCmd_Run.
  destruct (r_byRank c) as [[start stop] |].
  - unfold RangeCmd_rangeRank.
    destruct ((start <? 0) || (stop <? 0)); [reflexivity |].
    unfold bind, query, exec, ret. rewrite time_Now_run.
    cbn [store ticks log fst]. fold (now_at clock (ticks w)).
    unfold range_rank_rows. now rewrite Hj.
  - destruct (r_byScore c) as [[start stop] |]; [| reflexivity].
    unfold RangeCmd_rangeScore, bind, query, exec, ret. rewrite time_Now_run.
    cbn [store ticks log fst]. fold (now_at clock (ticks w)).
    unfold range_score_rows. rewrite Hj. cbn [filter map order_by fold_right].
    now rewrite apply_limit_nil.
Qed.

Lemma range_without_set_is_empty_witness :
  let late := mkWorld store0 5000 [] in
  let c := mkRangeCmd "z" (Some (0, 10)) None Asc 0 0 in
  (forall k, In k (rkey (store late)) -> Name k = r_key c ->
             live (now_at clock0 (ticks late)) k = true ->
             members (ID k) (store late) = [])
  /\ fst (RangeCmd_Run clock0 c world0)
     = ([mkItem "c" 100%float; mkItem "d" 200%float], None)
  /\ fst (RangeCmd_Run clock0 c late) = ([], None).
Proof.
  intros late c.
  assert (Hnone : forall k, In k (rkey (store late)) -> Name k = r_key c ->
                   live (now_at clock0 (ticks late)) k = true ->
                   members (ID k) (store late) = []).
  { intros k Hk Hn Hl. simpl in Hk.
    destruct Hk as [<- | [<- | [<- | [<- | []]]]]; try discriminate Hn.
    vm_compute in Hl. discriminate Hl. }
  split; [exact Hnone |]. split; [vm_compute; reflexivity |].
  exact (range_without_set_is_empty clock0 c late Hnone).
Defined.

(** X22. Every item a range-by-score query returns is a member of a live
    record of the key, with its score, and that score lies between the two
    bounds: offset and count only cut the result, they never let anything
    else in. *)
Theorem rangeScore_items_within_bounds :
  forall (clock : nat -> Z) (c : RangeCmd) (start stop : float) (w : World)
         (it : SetItem),
    r_byRank c = None ->
    r_byScore c = Some (start, stop) ->
    In it (fst (fst (RangeCmd_Run clock c w))) ->
    PrimFloat.leb start (Score it) = true
    /\ PrimFloat.leb (Score it) stop = true
    /\ exists k z,
         In k (rkey (store w)) /\ Name k = r_key c
         /\ live (now_at clock (ticks w)) k = true
         /\ In z (members (ID k) (store w)) /\ it = toItem z.
Proof.
  intros clock c start stop w it Hrank Hscore.
  unfold RangeCmd_Run. rewrite Hrank, Hscore.
  unfold RangeCmd_rangeScore, bind, query, exec, ret. rewrite time_Now_run.
  cbn [store ticks log fst]. fold (now_at clock (ticks w)).
  intros Hin. apply apply_limit_In, range_score_rows_matching in Hin.
  destruct Hin as [z [Hz [H1 [H2 ->]]]].
  apply joined_In_live in Hz. destruct Hz as [Hzin [k [Hk [Hid [Hl Hn]]]]].
  apply String.eqb_eq in Hn.
  split; [exact H1 |]. split; [exact H2 |].
  exists k, z. repeat split; try assumption.
  unfold members. apply filter_In. split; [assumption |].
  now apply Z.eqb_eq.
Qed.

Lemma rangeScore_items_within_bounds_witness :
  let c := mkRangeCmd "x" None (Some (2%float, 3%float)) Desc 0 1 in
  r_byRank c = None
  /\ r_byScore c = Some (2%float, 3%float)
  /\ fst (RangeCmd_Run clock0 c world0) = ([mkItem "c" 3%float], None)
  /\ PrimFloat.leb 2%float (Score (mkItem "c" 3%float)) = true
  /\ PrimFloat.leb (Score (mkItem "c" 3%float)) 3%float = true.
Proof.
  intros c.
  assert (Hrun : fst (RangeCmd_Run clock0 c world0)
                 = ([mkItem "c" 3%float], None)) by (vm_compute; reflexivity).
  assert (Hin : In (mkItem "c" 3%float)
                   (fst (fst (RangeCmd_Run clock0 c world0)))).
  { rewrite Hrun. now left. }
  destruct (rangeScore_items_within_bounds clock0 c 2%float 3%float world0
              _ eq_refl eq_refl Hin) as [Hlo [Hhi _]].
  split; [reflexivity |]. split; [reflexivity |]. split; [exact Hrun |].
  split; [exact Hlo | exact Hhi].
Defined.

(** ** The store forms: which destinations are accepted *)

Lemma delete_where_dest_kept tss now dest st k :
  names_unique (rkey st) = true ->
  In k (rkey st) -> Name k = dest -> dest_doomed tss now dest k = false ->
  delete_where (dest_doomed tss now dest) st = (0, st).
Proof.
  intros Hu Hin Hname Hkept. apply delete_where_none. intros x Hx.
  destruct (dest_doomed tss now dest x) eqn:E; [| reflexivity].
  assert (Name x = dest).
  { unfold dest_doomed in E. rewrite key_in_single in E.
    apply andb_true_iff in E. destruct E as [E _].
    apply andb_true_iff in E. destruct E as [E _].
    now apply String.eqb_eq. }
  assert (x = k) by (apply (names_unique_inj _ Hu); congruence).
  congruence.
Qed.

Lemma store_with_blocked clock tss iv s1 s2 dest q w k :
  names_unique (rkey (store w)) = true ->
  In k (rkey (store w)) -> Name k = dest ->
  dest_doomed tss (now_at clock (ticks w)) dest k = false ->
  fails_wrong_type (store_with clock tss iv s1 s2 dest q) w.
Proof.
  intros Hu Hin Hname Hkept. unfold fails_wrong_type.
  rewrite store_with_run.
  rewrite (delete_where_dest_kept tss _ dest (store w) k Hu Hin Hname Hkept).
  cbn [snd].
  assert (Hex : existsb (fun k0 => String.eqb (Name k0) dest)
                        (rkey (store w)) = true).
  { apply existsb_exists. exists k. split; [assumption |].
    rewrite Hname. apply String.eqb_refl. }
  rewrite Hex. now split.
Qed.

(** X23. What decides the outcome of the store form is the record that
    holds the destination name when [sqlDeleteType] runs.  If there is none,
    or it is a live sorted set, the store succeeds.  If it is of another
    type, or has expired without being reaped (of whatever type), the store
    fails with wrong-type and the store is unchanged. *)
Theorem store_outcome_by_destination :
  forall (clock : nat -> Z) (TypeSortedSet InitialVersion : Z)
         (ci : InterCmd) (cu : UnionCmd) (w : World) (dest : string),
    names_unique (rkey (store w)) = true ->
    fk_ok (store w) = true ->
    i_dest ci = dest ->
    u_dest cu = dest ->
    let now := now_at clock (ticks w) in
    ((forall k, In k (rkey (store w)) -> Name k = dest ->
                live now k = true /\ Type_ k = TypeSortedSet) ->
     snd (fst (InterCmd_store clock TypeSortedSet InitialVersion ci w)) = None
     /\ snd (fst (UnionCmd_store clock TypeSortedSet InitialVersion cu w))
        = None)
    /\ (forall k, In k (rkey (store w)) -> Name k = dest ->
                  live now k = false \/ Type_ k <> TypeSortedSet ->
        fails_wrong_type
          (InterCmd_store clock TypeSortedSet InitialVersion ci) w
        /\ fails_wrong_type
             (UnionCmd_store clock TypeSortedSet InitialVersion cu) w).
Proof.
  intros clock tss iv ci cu w dest Hu Hfk Hi Hc now.
  rewrite InterCmd_store_shape, UnionCmd_store_shape, Hi, Hc.
  split.
  - intros Hfree. split; now apply store_with_succeeds.
  - intros k Hk Hname Hbad.
    assert (Hkept : dest_doomed tss now dest k = false).
    { unfold dest_doomed. destruct Hbad as [Hl | Ht].
      - now rewrite Hl, andb_false_r.
      - destruct (Z.eqb_spec (Type_ k) tss); [contradiction |].
        apply andb_false_r. }
    split; now apply (store_with_blocked _ _ _ _ _ _ _ _ k).
Qed.

Lemma store_outcome_by_destination_witness :
  let late := mkWorld store0 5000 [] in
  let k := mkKey 3 "z" 5 1 (Some 5000) 0 in
  names_unique (rkey (store late)) = true
  /\ fk_ok (store late) = true
  /\ In k (rkey (store late))
  /\ live (now_at clock0 (ticks late)) k = false
  /\ fst (UnionCmd_store clock0 5 1
            (mkUnionCmd None (Some OpenTx) "z" ["x"] Sum) late)
     = (0, Some ErrKeyType)
  /\ fst (UnionCmd_store clock0 5 1
            (mkUnionCmd None (Some OpenTx) "x" ["y"] Sum) late)
     = (3, None)
  /\ fst (InterCmd_store clock0 5 1
            (mkInterCmd None (Some OpenTx) "new" ["x"; "y"] Sum) late)
     = (2, None).
Proof.
  intros late k.
  assert (Hk : In k (rkey (store late))) by (simpl; tauto).
  assert (Hl : live (now_at clock0 (ticks late)) k = false)
    by (vm_compute; reflexivity).
  destruct (store_outcome_by_destination clock0 5 1
              (mkInterCmd None (Some OpenTx) "z" ["x"] Sum)
              (mkUnionCmd None (Some OpenTx) "z" ["x"] Sum)
              late "z" eq_refl eq_refl eq_refl eq_refl) as [_ Hblocked].
  destruct (Hblocked k Hk eq_refl (or_introl Hl)) as [_ [Hfail _]].
  split; [reflexivity |]. split; [reflexivity |]. split; [exact Hk |].
  split; [exact Hl |]. split; [exact Hfail |].
  split; vm_compute; reflexivity.
Defined.

(** ** The store forms keep the schema invariants *)

Lemma names_unique_add rows k :
  names_unique rows = true ->
  existsb (fun r => String.eqb (Name r) (Name k)) rows = false ->
  names_unique (rows ++ [k]) = true.
Proof.
  induction rows as [| h t IH]; intros Hu Hfree; [reflexivity |].
  simpl in *. apply andb_true_iff in Hu. destruct Hu as [Hh Ht].
  apply orb_false_iff in Hfree. destruct Hfree as [Hhk Hfree].
  rewrite (IH Ht Hfree), andb_true_r. apply negb_true_iff.
  rewrite existsb_app. apply negb_true_iff in Hh. rewrite Hh. simpl.
  rewrite String.eqb_sym, Hhk. reflexivity.
Qed.

Lemma ids_ascending_add lo rows k :
  ids_ascending lo rows = true ->
  lo < ID k -> (forall r, In r rows -> ID r < ID k) ->
  ids_ascending lo (rows ++ [k]) = true.
Proof.
  revert lo. induction rows as [| h t IH]; intros lo H Hlo Hbelow; simpl.
  - rewrite andb_true_r. now apply Z.ltb_lt.
  - simpl in H. apply andb_true_iff in H. destruct H as [H1 H2].
    rewrite H1. apply IH; [assumption | |].
    + apply Hbelow. now left.
    + intros r Hr. apply Hbelow. now right.
Qed.

Lemma next_id_positive rows : ids_ascending 0 rows = true -> 0 < next_id rows.
Proof.
  intros H. destruct rows as [| k t]; [reflexivity |].
  pose proof (ids_ascending_In 0 _ k H (or_introl eq_refl)).
  pose proof (next_id_fresh (k :: t) k (or_introl eq_refl)). lia.
Qed.

Lemma members_unique_filter p zs :
  members_unique zs = true -> members_unique (filter p zs) = true.
Proof.
  induction zs as [| z t IH]; intros H; [reflexivity |].
  simpl in H. apply andb_true_iff in H. destruct H as [Hz Ht]. simpl.
  destruct (p z); [| now apply IH].
  simpl. rewrite (IH Ht), andb_true_r.
  apply negb_true_iff in Hz. apply negb_true_iff.
  apply existsb_false_iff. intros x Hx. apply filter_In in Hx.
  now apply (proj1 (existsb_false_iff _ _) Hz).
Qed.

Lemma members_unique_app zs rows :
  members_unique zs = true ->
  members_unique rows = true ->
  (forall z r, In z zs -> In r rows ->
               (key_id r =? key_id z) && String.eqb (zelem r) (zelem z)
               = false) ->
  members_unique (zs ++ rows) = true.
Proof.
  induction zs as [| z t IH]; intros Hz Hr Hcross; [exact Hr |].
  simpl in *. apply andb_true_iff in Hz. destruct Hz as [Hz Ht].
  rewrite IH; try assumption.
  - rewrite andb_true_r. apply negb_true_iff. rewrite existsb_app.
    apply negb_true_iff in Hz. rewrite Hz. simpl.
    apply existsb_false_iff. intros r Hin. apply Hcross; [now left | assumption].
  - intros z' r Hz' Hin. apply Hcross; [now right | assumption].
Qed.

Lemma members_unique_new id items :
  NoDup (map Elem items) ->
  members_unique (map (fun it => mkZRow id (Elem it) (Score it)) items) = true.
Proof.
  induction items as [| it t IH]; intros Hnd; [reflexivity |].
  inversion Hnd as [| ? ? Hit Ht]; subst. simpl.
  rewrite (IH Ht), andb_true_r. apply negb_true_iff.
  apply existsb_false_iff. intros r Hr. apply in_map_iff in Hr.
  destruct Hr as [it' [<- Hit']]. cbn [key_id zelem].
  destruct (String.eqb_spec (Elem it') (Elem it)) as [E | E];
    [| apply andb_false_r].
  exfalso. apply Hit. rewrite <- E. now apply in_map.
Qed.

(** The grouped queries return each element once. *)
Lemma select_grouped_elems_NoDup a having rows :
  NoDup (map Elem (select_grouped a having rows)).
Proof.
  unfold select_grouped.
  eapply Permutation_NoDup;
    [apply Permutation_map, order_by_Permutation |].
  rewrite map_map. cbn [Elem].
  unfold group_by_elem.
  assert (Hnd : NoDup (nodup string_dec (map zelem rows)))
    by apply NoDup_nodup.
  revert Hnd. generalize (nodup string_dec (map zelem rows)). intros es Hnd.
  induction es as [| e t IH]; [constructor |].
  inversion Hnd as [| ? ? He Ht]; subst. simpl.
  destruct (having _); simpl; [| now apply IH].
  constructor; [| now apply IH].
  intros Hin. apply in_map_iff in Hin. destruct Hin as [g [Hg Hin]].
  apply filter_In in Hin. destruct Hin as [Hin _].
  apply in_map_iff in Hin. destruct Hin as [e' [<- He']].
  cbn [fst] in Hg. now subst.
Qed.

(** The store form, whatever query it runs and whatever its outcome, keeps
    the schema invariants, provided the query returns each element once. *)
Lemma store_with_keeps_invariants clock tss iv s1 s2 dest q w :
  (forall now st, NoDup (map Elem (q now st))) ->
  wf (store w) = true ->
  members_unique (rzset (store w)) = true ->
  wf (store (snd (store_with clock tss iv s1 s2 dest q w))) = true
  /\ members_unique
       (rzset (store (snd (store_with clock tss iv s1 s2 dest q w)))) = true.
Proof.
  intros Hq Hwf Hmu. rewrite store_with_run.
  set (st1 := snd (delete_where _ (store w))).
  assert (Hwf1 : wf st1 = true) by now apply delete_where_wf.
  assert (Hmu1 : members_unique (rzset st1) = true).
  { unfold st1, delete_where, cascade. cbn [snd rzset].
    now apply members_unique_filter. }
  destruct (existsb (fun k => String.eqb (Name k) dest) (rkey st1)) eqn:Hex;
    [cbn [snd store]; now split |].
  cbv zeta.
  set (id := next_id (rkey st1)).
  set (row := mkKey id dest tss iv None (now_at clock (S (ticks w)))).
  set (st2 := mkStore (rkey st1 ++ [row]) (rzset st1)).
  apply wf_parts in Hwf1. destruct Hwf1 as [Hu1 [Hord1 Hfk1]].
  assert (Hwf2 : wf st2 = true).
  { apply wf_parts. unfold rowid_order. cbn [st2 rkey rzset]. repeat split.
    - now apply names_unique_add.
    - apply ids_ascending_add; [exact Hord1 | now apply next_id_positive |].
      intros r Hr. now apply next_id_fresh.
    - apply fk_ok_carry. cbn [rkey rzset]. intros z Hz.
      destruct (fk_ok_In st1 z Hfk1 Hz) as [k [Hk Hid]].
      exists k. split; [apply in_or_app; now left | assumption]. }
  unfold insert_members.
  set (rows := map (fun it => mkZRow id (Elem it) (Score it))
                   (q (now_at clock (S (ticks w))) st2)).
  destruct (existsb _ (rzset st2)) eqn:Hclash;
    cbn [fst snd store]; [now split |].
  split.
  - apply wf_parts in Hwf2. destruct Hwf2 as [Hu2 [Hord2 Hfk2]].
    apply wf_parts. unfold rowid_order. cbn [rkey rzset].
    repeat split; try assumption.
    apply fk_ok_carry. cbn [rkey rzset]. intros z Hz.
    apply in_app_or in Hz. destruct Hz as [Hz | Hz].
    + exact (fk_ok_In st2 z Hfk2 Hz).
    + exists row. split; [apply in_or_app; right; now left |].
      unfold rows in Hz. apply in_map_iff in Hz.
      now destruct Hz as [it [<- _]].
  - cbn [rzset]. apply members_unique_app; [exact Hmu1 | |].
    + apply members_unique_new, Hq.
    + intros z r Hz Hr.
      pose proof (proj1 (existsb_false_iff _ _) Hclash z Hz) as Hno.
      cbv beta in Hno.
      pose proof (proj1 (existsb_false_iff _ _) Hno r Hr) as Hzr.
      cbv beta in Hzr.
      now rewrite Z.eqb_sym, String.eqb_sym.
Qed.

(** X24. The store forms of intersect and union keep the schema
    invariants, whether they succeed or fail and through either handle:
    afterwards key names are unique, ids positive and in rowid order,
    every member row belongs to a key row, and no set holds an element
    twice. *)
Theorem store_keeps_invariants :
  forall (clock : nat -> Z) (TypeSortedSet InitialVersion : Z)
         (ci : InterCmd) (cu : UnionCmd) (w : World),
    wf (store w) = true ->
    members_unique (rzset (store w)) = true ->
    let ok := fun w' =>
      wf (store w') = true /\ members_unique (rzset (store w')) = true in
    ok (snd (InterCmd_store clock TypeSortedSet InitialVersion ci w))
    /\ ok (snd (UnionCmd_store clock TypeSortedSet InitialVersion cu w))
    /\ ok (snd (InterCmd_Store clock TypeSortedSet InitialVersion ci w))
    /\ ok (snd (UnionCmd_Store clock TypeSortedSet InitialVersion cu w)).
Proof.
  intros clock tss iv ci cu w Hwf Hmu ok.
  assert (HI : ok (snd (InterCmd_store clock tss iv ci w))).
  { rewrite InterCmd_store_shape.
    apply store_with_keeps_invariants; try assumption.
    intros now st. apply select_grouped_elems_NoDup. }
  assert (HU : ok (snd (UnionCmd_store clock tss iv cu w))).
  { rewrite UnionCmd_store_shape.
    apply store_with_keeps_invariants; try assumption.
    intros now st. apply select_grouped_elems_NoDup. }
  assert (Hupd : forall m : M (Z * option Error),
            ok (snd (m w)) -> ok (snd (DB_Update m w))).
  { intros m Hm. unfold DB_Update. destruct (m w) as [r w'].
    destruct (snd r); [| exact Hm]. unfold ok. cbn [snd store]. now split. }
  split; [exact HI |]. split; [exact HU |]. split.
  - unfold InterCmd_Store. destruct (i_db ci); [now apply Hupd |].
    destruct (i_tx ci); [exact HI |]. unfold ok. cbn. now split.
  - unfold UnionCmd_Store. destruct (u_db cu); [now apply Hupd |].
    destruct (u_tx cu); [exact HU |]. unfold ok. cbn. now split.
Qed.

Lemma store_keeps_invariants_witness :
  let cu := mkUnionCmd None (Some OpenTx) "x" ["x"; "y"; "z"] Sum in
  let w' := snd (UnionCmd_Store clock0 5 1 cu world0) in
  wf (store world0) = true
  /\ members_unique (rzset (store world0)) = true
  /\ fst (UnionCmd_Store clock0 5 1 cu world0) = (3, None)
  /\ wf (store w') = true
  /\ members_unique (rzset (store w')) = true.
Proof.
  intros cu w'.
  destruct (store_keeps_invariants clock0 5 1
              (mkInterCmd None None "" [] Sum) cu world0 eq_refl eq_refl)
    as [_ [_ [_ [Hwf Hmu]]]].
  split; [reflexivity |]. split; [reflexivity |].
  split; [vm_compute; reflexivity |]. split; [exact Hwf | exact Hmu].
Defined.

(** ** DeleteType; the order of intersect's keys *)

Lemma DeleteType_run_all clock typ keys w :
  DeleteType clock typ keys w
  = let p := fun k => key_in keys k && live (now_at clock (ticks w)) k
                      && (Type_ k =? typ) in
    ((fst (delete_where p (store w)), None),
     mkWorld (snd (delete_where p (store w))) (S (ticks w))
             (log w ++ [SqlDeleteType])).
Proof. reflexivity. Qed.

(** X25. [DeleteType] never removes a key of another type or of a name it
    was not given, adds nothing, returns the number of rows it removed, and
    leaves no live key of that type under the names: asked again at the
    same clock reading it would remove none. *)
Theorem DeleteType_only_that_type :
  forall (clock : nat -> Z) (typ : Z) (keys : list string) (w : World),
    let r := DeleteType clock typ keys w in
    let rows := rkey (store w) in
    let rows' := rkey (store (snd r)) in
    (forall k, In k rows -> Type_ k <> typ \/ ~ In (Name k) keys ->
               In k rows')
    /\ (forall k, In k rows' -> In k rows)
    /\ fst r = (Z.of_nat (List.length rows) - Z.of_nat (List.length rows'),
                None)
    /\ (forall k, In k rows' -> In (Name k) keys -> Type_ k = typ ->
                  live (now_at clock (ticks w)) k = false).
Proof.
  intros clock typ keys w r rows rows'. unfold rows', rows, r.
  clear rows' rows r. rewrite DeleteType_run_all. cbv zeta. unfold delete_where.
  cbn [fst snd store rkey].
  set (p := fun k => key_in keys k && live (now_at clock (ticks w)) k
                     && (Type_ k =? typ)).
  split; [| split; [| split]].
  - intros k Hk Hother. apply filter_In. split; [assumption |].
    apply negb_true_iff. unfold p. destruct Hother as [Ht | Hn].
    + destruct (Z.eqb_spec (Type_ k) typ); [contradiction |].
      apply andb_false_r.
    + destruct (key_in keys k) eqn:E; [| reflexivity].
      apply key_in_spec in E. contradiction.
  - intros k Hk. now apply filter_In in Hk.
  - f_equal. change (fun k => negb (_ && _ && _)) with (fun k => negb (p k)).
    pose proof (filter_length p (rkey (store w))) as Hlen. lia.
  - intros k Hk Hn Ht. apply filter_In in Hk. destruct Hk as [_ Hkeep].
    apply negb_true_iff in Hkeep. unfold p in Hkeep.
    apply key_in_spec in Hn. rewrite Hn, Ht, Z.eqb_refl in Hkeep.
    simpl in Hkeep. now rewrite andb_true_r in Hkeep.
Qed.

(** X26. The intersection does not depend on the order in which the keys
    are given. *)
Theorem inter_order_irrelevant :
  forall (clock : nat -> Z) (c1 c2 : InterCmd) (w : World),
    i_db c1 <> None \/ i_tx c1 <> None ->
    i_db c2 <> None \/ i_tx c2 <> None ->
    i_aggregate c1 = i_aggregate c2 ->
    Permutation (i_keys c1) (i_keys c2) ->
    fst (InterCmd_Run clock c1 w) = fst (InterCmd_Run clock c2 w).
Proof.
  intros clock c1 c2 w H1 H2 Hagg Hperm.
  rewrite (InterCmd_Run_handle _ _ _ H1), (InterCmd_Run_handle _ _ _ H2).
  rewrite !InterCmd_inter_run. cbn [fst]. f_equal.
  unfold inter_query, inter_rows.
  rewrite Hagg, (Permutation_length Hperm). f_equal.
  apply joined_ext. intros k _ _.
  destruct (key_in (i_keys c1) k) eqn:E1, (key_in (i_keys c2) k) eqn:E2;
    try reflexivity.
  - apply key_in_spec in E1. apply (Permutation_in _ Hperm), key_in_spec in E1.
    congruence.
  - apply key_in_spec in E2.
    apply (Permutation_in _ (Permutation_sym Hperm)), key_in_spec in E2.
    congruence.
Qed.

Lemma inter_order_irrelevant_witness :
  let c1 := mkInterCmd None (Some OpenTx) "" ["x"; "y"; "z"] Max in
  let c2 := mkInterCmd (Some OpenDB) None "" ["z"; "x"; "y"] Max in
  (i_db c1 <> None \/ i_tx c1 <> None)
  /\ (i_db c2 <> None \/ i_tx c2 <> None)
  /\ Permutation (i_keys c1) (i_keys c2)
  /\ fst (InterCmd_Run clock0 c2 world0) = ([mkItem "c" 100%float], None).
Proof.
  intros c1 c2.
  assert (H1 : i_db c1 <> None \/ i_tx c1 <> None) by (right; discriminate).
  assert (H2 : i_db c2 <> None \/ i_tx c2 <> None) by (left; discriminate).
  assert (Hp : Permutation (i_keys c1) (i_keys c2)).
  { simpl. apply Permutation_sym. apply (Permutation_cons_app ["x"; "y"] []).
    apply Permutation_refl. }
  split; [exact H1 |]. split; [exact H2 |]. split; [exact Hp |].
  rewrite <- (inter_order_irrelevant clock0 c1 c2 world0 H1 H2 eq_refl Hp).
  vm_compute. reflexivity.
Defined.
